(** * Expense Tracker: the expense store of [main.py]

    A shallow embedding of the five tools of [main.py] (add_expense,
    get_expenses, edit_expense, delete_expense, get_summary) over a model of
    the single SQLite table [expenses] they operate on.

    Modelling conventions.
    - The table is a rowid table ([id INTEGER PRIMARY KEY AUTOINCREMENT]):
      a finite map from the integer [id] to the remaining columns, together
      with the counter SQLite keeps in [sqlite_sequence].
    - TEXT values are byte strings; SQLite compares them bytewise (BINARY
      collation), which is [String.compare].
    - [amount] is a Python float stored in a REAL column.  It is modelled by
      the exact rational it denotes.  The totals the tools print are sums in
      binary64 floating point; their values are outside the model, and a
      reply does not carry them.
    - A Python parameter with default [None] is an [option]; [None] is the
      omitted argument.
    - [datetime.now()] is an input of [add_expense] (a [Clock] reading).
    - Every tool opens a connection, runs its statements and closes it; a
      tool is a function from the committed database to a reply and the
      committed database after the call.
    - An exception that leaves a tool is a reply of its own ([Raises]); the
      one modelled is the OverflowError of the sqlite3 driver for an integer
      parameter that does not fit 64 bits.  Faults of the storage itself
      (I/O errors, exhaustion of the rowids) are outside the model. *)

From Stdlib Require Import ZArith QArith String Ascii DecimalString.
From stdpp Require Import gmap strings list fin_maps sorting.

Local Open Scope Z_scope.

(** ** TEXT values and their order *)

Module Text.

(** Bytewise comparison of two TEXT values, as SQLite's BINARY collation
    (memcmp, the shorter string first when one is a prefix). *)
Definition compare (s1 s2 : string) : comparison := String.compare s1 s2.

Definition lt (s1 s2 : string) : Prop := compare s1 s2 = Lt.
Definition le (s1 s2 : string) : Prop := compare s1 s2 ≠ Gt.
Definition ge (s1 s2 : string) : Prop := compare s1 s2 ≠ Lt.

(** [date >= ?] and [date <= ?] in a WHERE clause. *)
Definition geb (s1 s2 : string) : bool :=
  match compare s1 s2 with Lt => false | _ => true end.
Definition leb (s1 s2 : string) : bool :=
  match compare s1 s2 with Gt => false | _ => true end.

(** Python's [f"{n}"] for an integer. *)
Definition of_int (n : Z) : string := NilZero.string_of_int (Z.to_int n).

End Text.

(** ** Data model *)

(** The columns of a row of [expenses] other than [id]. *)
Record Expense := {
  amount : Q;
  category : string;
  subcategory : string;
  description : string;
  date : string;
  created_at : string
}.

(** A fetched row: the [id] and the other columns. *)
Abbreviation Row := (Z * Expense)%type.

(** The database file: the table and the AUTOINCREMENT counter. *)
Record Db := {
  expenses : gmap Z Expense;
  sqlite_sequence : Z
}.

(** [init_db] on a fresh file: [CREATE TABLE IF NOT EXISTS]. *)
Definition init_db : Db := {| expenses := ∅; sqlite_sequence := 0 |}.

(** The two readings of the clock [add_expense] takes:
    [datetime.now().strftime("%Y-%m-%d")] and [datetime.now().isoformat()]. *)
Record Clock := {
  today : string;
  now_iso : string
}.

(** What a tool returns.  Replies whose text is fixed or only embeds an
    integer are given verbatim; the others carry the values the source
    formats into the text, except the totals it adds up in floating point.
    [Raises] is a call that ends in an uncaught exception. *)
Inductive Reply :=
  | Message (text : string)
  | ExpenseAdded (expense_id : Z) (amount : Q) (category date : string)
  | ExpensesFound (rows : list Row)
  | ExpenseUpdated (expense_id : Z)
  | ExpenseDeleted (expense_id : Z)
  | SummaryReport (summary : list (string * Q * nat))
  | Raises (exception : string).

Definition amount_must_be_positive : string := "Error: Amount must be positive".
Definition no_fields_to_update : string := "Error: No fields to update".
Definition no_expenses_found : string := "No expenses found".
Definition not_found (expense_id : Z) : string :=
  "Error: Expense with ID " +:+ Text.of_int expense_id +:+ " not found".

(** ** SQL statements *)

(** An integer parameter of a statement is bound as a signed 64-bit
    INTEGER; for a Python int outside that range [cursor.execute] raises
    OverflowError. *)
Definition fits_int64 (n : Z) : bool :=
  (- 2 ^ 63 <=? n) && (n <? 2 ^ 63).

Definition overflow_error : Reply := Raises "OverflowError".

(** The largest rowid of the table, if it has a row. *)
Definition last_rowid (t : gmap Z Expense) : option Z :=
  map_fold
    (λ k _ acc, Some (match acc with Some k' => Z.max k k' | None => k end))
    None t.

(** The rowid an INSERT takes in an AUTOINCREMENT table: one more than the
    largest rowid of the table, and more than every rowid used before. *)
Definition new_rowid (db : Db) : Z :=
  Z.max (match last_rowid (expenses db) with Some k => k + 1 | None => 1 end)
        (sqlite_sequence db + 1).

(** ** add_expense *)

Definition add_expense (clk : Clock) (amount : Q)
    (category description subcategory : string) (date : option string)
    (db : Db) : Reply * Db :=
  if Qle_bool amount 0 then (Message amount_must_be_positive, db)
  else
    let date := match date with None => today clk | Some d => d end in
    let now := now_iso clk in
    let expense_id := new_rowid db in
    (ExpenseAdded expense_id amount category date,
     {| expenses :=
          <[expense_id := {| amount := amount; category := category;
                             subcategory := subcategory;
                             description := description;
                             date := date; created_at := now |}]>
            (expenses db);
        sqlite_sequence := expense_id |}).

(** ** get_expenses *)

(** One [AND ...] term appended to [WHERE 1=1], with its parameter. *)
Inductive Condition :=
  | DateGe (start_date : string)
  | DateLe (end_date : string)
  | CategoryEq (category : string).

Definition holds (e : Expense) (c : Condition) : bool :=
  match c with
  | DateGe s => Text.geb (date e) s
  | DateLe s => Text.leb (date e) s
  | CategoryEq s => String.eqb (category e) s
  end.

(** [WHERE 1=1 AND c1 AND ... AND cn]. *)
Definition where_ (conditions : list Condition) (r : Row) : Prop :=
  forallb (holds r.2) conditions = true.

Global Instance where_dec conditions r : Decision (where_ conditions r).
Proof. unfold where_. apply _. Defined.

(** [if x: query += ...; params.append(x)]: the test is Python truthiness,
    false for [None] and for the empty string. *)
Definition if_truthy (x : option string) (c : string → Condition)
    : list Condition :=
  match x with
  | None => []
  | Some s => if String.eqb s "" then [] else [c s]
  end.

(** [ORDER BY date DESC, id DESC]: [r1] comes no later than [r2]. *)
Definition order_by_date_desc_id_desc (r1 r2 : Row) : Prop :=
  match Text.compare (date r1.2) (date r2.2) with
  | Gt => True
  | Lt => False
  | Eq => r2.1 ≤ r1.1
  end.

Global Instance order_by_date_desc_id_desc_dec r1 r2 :
  Decision (order_by_date_desc_id_desc r1 r2).
Proof.
  unfold order_by_date_desc_id_desc.
  destruct (Text.compare (date r1.2) (date r2.2)); apply _.
Defined.

(** The rows [cursor.fetchall()] yields in [get_expenses]. *)
Definition get_expenses_rows (start_date end_date category : option string)
    (db : Db) : list Row :=
  let conditions :=
    if_truthy start_date DateGe ++ if_truthy end_date DateLe
      ++ if_truthy category CategoryEq in
  merge_sort order_by_date_desc_id_desc
    (filter (where_ conditions) (map_to_list (expenses db))).

Definition get_expenses (start_date end_date category : option string)
    (db : Db) : Reply * Db :=
  let expenses := get_expenses_rows start_date end_date category db in
  match expenses with
  | [] => (Message no_expenses_found, db)
  | _ => (ExpensesFound expenses, db)
  end.

(** ** edit_expense *)

(** One [column = ?] term of the SET clause, with its parameter. *)
Inductive Assignment :=
  | SetAmount (a : Q)
  | SetCategory (s : string)
  | SetSubcategory (s : string)
  | SetDescription (s : string)
  | SetDate (s : string).

Definition assign (e : Expense) (u : Assignment) : Expense :=
  match u with
  | SetAmount a =>
      {| amount := a; category := category e; subcategory := subcategory e;
         description := description e; date := date e;
         created_at := created_at e |}
  | SetCategory s =>
      {| amount := amount e; category := s; subcategory := subcategory e;
         description := description e; date := date e;
         created_at := created_at e |}
  | SetSubcategory s =>
      {| amount := amount e; category := category e; subcategory := s;
         description := description e; date := date e;
         created_at := created_at e |}
  | SetDescription s =>
      {| amount := amount e; category := category e;
         subcategory := subcategory e; description := s; date := date e;
         created_at := created_at e |}
  | SetDate s =>
      {| amount := amount e; category := category e;
         subcategory := subcategory e; description := description e;
         date := s; created_at := created_at e |}
  end.

(** [if x is not None: updates.append(...); params.append(x)]. *)
Definition if_not_None {A} (x : option A) (u : A → Assignment)
    : list Assignment :=
  match x with
  | None => []
  | Some v => [u v]
  end.

(** [UPDATE expenses SET u1, ..., un WHERE id = ?]. *)
Definition update_where_id (updates : list Assignment) (expense_id : Z)
    (t : gmap Z Expense) : gmap Z Expense :=
  alter (λ e, foldl assign e updates) expense_id t.

(** The SELECT binds [expense_id]: for an id that does not fit 64 bits it
    raises OverflowError and nothing else happens.  A row id fits 64 bits,
    so an id that does not fit is among the ids that have no row; the test
    is made there. *)
Definition edit_expense (expense_id : Z) (amount : option Q)
    (category subcategory description date : option string)
    (db : Db) : Reply * Db :=
  match expenses db !! expense_id with
  | None =>
      if fits_int64 expense_id then (Message (not_found expense_id), db)
      else (overflow_error, db)
  | Some _ =>
      let updates :=
        if_not_None amount SetAmount ++ if_not_None category SetCategory
          ++ if_not_None subcategory SetSubcategory
          ++ if_not_None description SetDescription
          ++ if_not_None date SetDate in
      match updates with
      | [] => (Message no_fields_to_update, db)
      | _ =>
          (ExpenseUpdated expense_id,
           {| expenses := update_where_id updates expense_id (expenses db);
              sqlite_sequence := sqlite_sequence db |})
      end
  end.

(** ** delete_expense *)

(** [DELETE FROM expenses WHERE id = ?]: the table after the statement and
    [cursor.rowcount]. *)
Definition delete_where_id (expense_id : Z) (t : gmap Z Expense)
    : gmap Z Expense * Z :=
  (delete expense_id t,
   match t !! expense_id with Some _ => 1 | None => 0 end).

(** On [rowcount == 0] the connection is closed without a commit: the
    committed database is the one before the call.  The DELETE binds
    [expense_id]: for an id that does not fit 64 bits it raises
    OverflowError; such an id is among the ids that have no row, and the
    test is made there. *)
Definition delete_expense (expense_id : Z) (db : Db) : Reply * Db :=
  let '(t, rowcount) := delete_where_id expense_id (expenses db) in
  if rowcount =? 0 then
    if fits_int64 expense_id then (Message (not_found expense_id), db)
    else (overflow_error, db)
  else (ExpenseDeleted expense_id,
        {| expenses := t; sqlite_sequence := sqlite_sequence db |}).

(** ** get_summary *)

(** A row of the summary: [category], [total] and [count]. *)
Abbreviation SummaryRow := (string * Q * nat)%type.

Definition summary_category (g : SummaryRow) : string := g.1.1.
Definition summary_total (g : SummaryRow) : Q := g.1.2.
Definition summary_count (g : SummaryRow) : nat := g.2.

(** Accumulating one row into the aggregates [SUM(amount)] and [COUNT( * )]
    of its category.  The total held is the exact sum of the amounts; SQLite
    adds them in binary64, so the total it reports can differ by rounding.
    The properties below use the totals only through the order of the
    report. *)
Fixpoint accumulate (c : string) (a : Q) (summary : list SummaryRow)
    : list SummaryRow :=
  match summary with
  | [] => [(c, a, 1%nat)]
  | g :: rest =>
      if String.eqb (summary_category g) c
      then (c, (summary_total g + a)%Q, S (summary_count g)) :: rest
      else g :: accumulate c a rest
  end.

(** [SELECT category, SUM(amount), COUNT( * ) ... GROUP BY category]. *)
Definition group_by_category (rows : list Row) : list SummaryRow :=
  foldl (λ summary r, accumulate (category r.2) (amount r.2) summary) [] rows.

(** [ORDER BY total DESC]: [g1] comes no later than [g2].  SQL leaves the
    order of groups of equal total open. *)
Definition order_by_total_desc (g1 g2 : SummaryRow) : Prop :=
  (summary_total g2 <= summary_total g1)%Q.

Global Instance order_by_total_desc_dec g1 g2 :
  Decision (order_by_total_desc g1 g2).
Proof.
  unfold order_by_total_desc.
  destruct (Qlt_le_dec (summary_total g1) (summary_total g2)) as [H|H].
  - right. by apply Qlt_not_le.
  - by left.
Defined.

(** The rows [cursor.fetchall()] yields in [get_summary]. *)
Definition get_summary_rows (start_date end_date : option string)
    (db : Db) : list SummaryRow :=
  let conditions := if_truthy start_date DateGe ++ if_truthy end_date DateLe in
  merge_sort order_by_total_desc
    (group_by_category
       (filter (where_ conditions) (map_to_list (expenses db)))).

Definition get_summary (start_date end_date : option string)
    (db : Db) : Reply * Db :=
  let summary := get_summary_rows start_date end_date db in
  match summary with
  | [] => (Message no_expenses_found, db)
  | _ => (SummaryReport summary, db)
  end.

(** ** Sequences of tool calls *)

Inductive Call :=
  | AddExpense (clk : Clock) (amount : Q)
      (category description subcategory : string) (date : option string)
  | GetExpenses (start_date end_date category : option string)
  | EditExpense (expense_id : Z) (amount : option Q)
      (category subcategory description date : option string)
  | DeleteExpense (expense_id : Z)
  | GetSummary (start_date end_date : option string).

Definition call (c : Call) (db : Db) : Reply * Db :=
  match c with
  | AddExpense clk a cat desc sub d => add_expense clk a cat desc sub d db
  | GetExpenses sd ed cat => get_expenses sd ed cat db
  | EditExpense i a cat sub desc d => edit_expense i a cat sub desc d db
  | DeleteExpense i => delete_expense i db
  | GetSummary sd ed => get_summary sd ed db
  end.

(** The database after a sequence of calls. *)
Definition run (calls : list Call) (db : Db) : Db :=
  foldl (λ db c, (call c db).2) db calls.

(** The databases the server can be in: those a sequence of calls produces
    from the freshly initialised file. *)
Definition reachable (db : Db) : Prop := ∃ calls, run calls init_db = db.

(** The rows a reply of [get_expenses] lists. *)
Definition listed (r : Reply) : list Row :=
  match r with
  | ExpensesFound rows => rows
  | _ => []
  end.

(** ** The filters and the order, as specified *)

(** A predicate asked of a row for a filter that is supplied. *)
Definition when_supplied (x : option string) (P : string → Prop) : Prop :=
  match x with
  | None => True
  | Some s => P s
  end.

(** A predicate asked of a row for a filter that is supplied and is not the
    empty string. *)
Definition when_nonempty (x : option string) (P : string → Prop) : Prop :=
  match x with
  | None => True
  | Some s => s ≠ "" → P s
  end.

(** [date >= start_date], [date <= end_date] and [category == category],
    each for a supplied filter. *)
Definition satisfies_supplied (start_date end_date category_ : option string)
    (e : Expense) : Prop :=
  when_supplied start_date (λ s, Text.ge (date e) s)
  ∧ when_supplied end_date (λ s, Text.le (date e) s)
  ∧ when_supplied category_ (λ s, category e = s).

(** The same, each for a filter supplied and not empty. *)
Definition satisfies_nonempty (start_date end_date category_ : option string)
    (e : Expense) : Prop :=
  when_nonempty start_date (λ s, Text.ge (date e) s)
  ∧ when_nonempty end_date (λ s, Text.le (date e) s)
  ∧ when_nonempty category_ (λ s, category e = s).

(** [r1] may precede [r2] in a listing by date descending, ties broken by
    id descending. *)
Definition date_desc_then_id_desc (r1 r2 : Row) : Prop :=
  Text.lt (date r2.2) (date r1.2)
  ∨ (date r1.2 = date r2.2 ∧ r2.1 < r1.1).

(** Every stored row has a category other than the empty string. *)
Definition categories_nonempty (db : Db) : Prop :=
  ∀ expense_id e, expenses db !! expense_id = Some e → category e ≠ "".

(** The category a call supplies, if it supplies one, is not empty. *)
Definition supplies_nonempty_category (c : Call) : Prop :=
  match c with
  | AddExpense _ _ cat _ _ _ => cat ≠ ""
  | EditExpense _ _ (Some cat) _ _ _ => cat ≠ ""
  | _ => True
  end.

(** The rows of a category. *)
Definition of_category (c : string) (rows : list Row) : list Row :=
  filter (λ r : Row, category r.2 = c) rows.

(** The date filters of [get_summary], each for a bound supplied and not
    empty. *)
Definition in_date_range (start_date end_date : option string)
    (e : Expense) : Prop :=
  when_nonempty start_date (λ s, Text.ge (date e) s)
  ∧ when_nonempty end_date (λ s, Text.le (date e) s).

(** The summary rows of a category. *)
Definition summary_of_category (c : string) (summary : list SummaryRow)
    : list SummaryRow :=
  filter (λ g : SummaryRow, summary_category g = c) summary.

(** The row [add_expense] inserts. *)
Definition added_row (clk : Clock) (a : Q) (cat desc sub : string)
    (d : option string) : Expense :=
  {| amount := a; category := cat; subcategory := sub; description := desc;
     date := default (today clk) d; created_at := now_iso clk |}.

(** The AUTOINCREMENT counter is not negative and every row id lies
    between 1 and the counter. *)
Definition ids_bounded (db : Db) : Prop :=
  0 ≤ sqlite_sequence db
  ∧ ∀ k e, expenses db !! k = Some e → 1 ≤ k ≤ sqlite_sequence db.

(** A call of [add_expense] with a positive amount. *)
Definition adds_row (c : Call) : Prop :=
  match c with
  | AddExpense _ a _ _ _ _ => Qle_bool a 0 = false
  | _ => False
  end.

Global Instance adds_row_dec c : Decision (adds_row c).
Proof. destruct c; simpl; apply _. Defined.

(** Every stored row has a positive amount. *)
Definition amounts_positive (db : Db) : Prop :=
  ∀ expense_id e, expenses db !! expense_id = Some e → (0 < amount e)%Q.

(** The amount a call of [edit_expense] supplies, if it supplies one, is
    positive. *)
Definition edits_positive_amount (c : Call) : Prop :=
  match c with
  | EditExpense _ (Some a) _ _ _ _ => (0 < a)%Q
  | _ => True
  end.

(** The argument in force after two edits: the later one when supplied,
    else the earlier one. *)
Definition later_or {A} (later earlier : option A) : option A :=
  match later with
  | Some v => Some v
  | None => earlier
  end.

(** The rows a reply of [get_summary] reports. *)
Definition summarised (r : Reply) : list SummaryRow :=
  match r with
  | SummaryReport summary => summary
  | _ => []
  end.

(** The rows the WHERE clause of [get_summary] keeps. *)
Definition get_summary_source (start_date end_date : option string)
    (db : Db) : list Row :=
  filter (where_ (if_truthy start_date DateGe ++ if_truthy end_date DateLe))
    (map_to_list (expenses db)).

(** ** Examples *)

Definition clk0 : Clock :=
  {| today := "2024-03-01"; now_iso := "2024-03-01T10:00:00" |}.

Definition db_scenario : Db :=
  run [AddExpense clk0 50 "Food" "" "" (Some "2024-01-01");
       AddExpense clk0 20 "Food" "" "" (Some "2024-01-02");
       AddExpense clk0 30 "Transport" "bus" "" None] init_db.

Definition db_empty_category : Db :=
  run [AddExpense clk0 1 "" "" "" None] init_db.

(** * Properties *)

(** ** The order on TEXT values *)

Section text_order.

Lemma ascii_compare_refl a : Ascii.compare a a = Eq.
Proof. apply N.compare_refl. Qed.

Lemma ascii_compare_lt_trans a b c :
  Ascii.compare a b = Lt → Ascii.compare b c = Lt → Ascii.compare a c = Lt.
Proof.
  unfold Ascii.compare. rewrite !N.compare_lt_iff. apply N.lt_trans.
Qed.

Lemma compare_refl s : Text.compare s s = Eq.
Proof.
  induction s as [|a s IH]; simpl; [done|].
  unfold Text.compare in *. simpl. by rewrite ascii_compare_refl.
Qed.

Lemma compare_eq s1 s2 : Text.compare s1 s2 = Eq ↔ s1 = s2.
Proof.
  split; [apply String.compare_eq_iff|]. intros ->. apply compare_refl.
Qed.

Lemma compare_antisym s1 s2 :
  Text.compare s1 s2 = CompOpp (Text.compare s2 s1).
Proof. apply String.compare_antisym. Qed.

Lemma compare_lt_trans s1 s2 s3 :
  Text.compare s1 s2 = Lt → Text.compare s2 s3 = Lt →
  Text.compare s1 s3 = Lt.
Proof.
  unfold Text.compare. revert s2 s3.
  induction s1 as [|a s1 IH]; intros [|b s2] [|c s3]; simpl; try done.
  destruct (Ascii.compare a b) eqn:Hab; try done;
    destruct (Ascii.compare b c) eqn:Hbc; try done.
  - apply Ascii.compare_eq_iff in Hab as ->.
    apply Ascii.compare_eq_iff in Hbc as ->.
    rewrite ascii_compare_refl. apply IH.
  - apply Ascii.compare_eq_iff in Hab as ->. by rewrite Hbc.
  - apply Ascii.compare_eq_iff in Hbc as ->. by rewrite Hab.
  - by rewrite (ascii_compare_lt_trans a b c).
Qed.

Lemma compare_gt_lt s1 s2 :
  Text.compare s1 s2 = Gt ↔ Text.compare s2 s1 = Lt.
Proof.
  rewrite (compare_antisym s1 s2).
  destruct (Text.compare s2 s1); simpl; split; congruence.
Qed.

Lemma compare_gt_trans s1 s2 s3 :
  Text.compare s1 s2 = Gt → Text.compare s2 s3 = Gt →
  Text.compare s1 s3 = Gt.
Proof.
  rewrite !compare_gt_lt. eauto using compare_lt_trans.
Qed.

Lemma geb_ge s1 s2 : Text.geb s1 s2 = true ↔ Text.ge s1 s2.
Proof.
  unfold Text.geb, Text.ge. destruct (Text.compare s1 s2); naive_solver.
Qed.

Lemma leb_le s1 s2 : Text.leb s1 s2 = true ↔ Text.le s1 s2.
Proof.
  unfold Text.leb, Text.le. destruct (Text.compare s1 s2); naive_solver.
Qed.

End text_order.

Global Instance order_by_date_desc_id_desc_total :
  Total order_by_date_desc_id_desc.
Proof.
  intros r1 r2. unfold order_by_date_desc_id_desc.
  rewrite (compare_antisym (date r2.2)).
  destruct (Text.compare (date r1.2) (date r2.2)); simpl; auto. lia.
Qed.

Global Instance order_by_date_desc_id_desc_trans :
  Transitive order_by_date_desc_id_desc.
Proof.
  intros r1 r2 r3. unfold order_by_date_desc_id_desc.
  destruct (Text.compare (date r1.2) (date r2.2)) eqn:H12; try done;
    destruct (Text.compare (date r2.2) (date r3.2)) eqn:H23; try done.
  - apply compare_eq in H12. apply compare_eq in H23.
    rewrite H12, H23, compare_refl. lia.
  - apply compare_eq in H12. rewrite H12, H23. done.
  - apply compare_eq in H23. rewrite <-H23, H12. done.
  - by rewrite (compare_gt_trans _ _ _ H12 H23).
Qed.

(** ** Integer parameters *)

Lemma fits_int64_spec (n : Z) :
  fits_int64 n = true ↔ - 2 ^ 63 ≤ n < 2 ^ 63.
Proof. unfold fits_int64. rewrite andb_true_iff. lia. Qed.

(** In a table whose row ids fit 64 bits, as those of an SQLite table do,
    [edit_expense] and [delete_expense] raise for every id that does not
    fit, before anything else: the place of the test among the ids without
    a row makes no difference. *)
Lemma edit_expense_binds_first db expense_id a cat sub desc d :
  (∀ k, is_Some (expenses db !! k) → fits_int64 k = true) →
  fits_int64 expense_id = false →
  edit_expense expense_id a cat sub desc d db = (overflow_error, db).
Proof.
  intros Hids Hfits. unfold edit_expense.
  destruct (expenses db !! expense_id) as [e|] eqn:He.
  - rewrite Hids in Hfits by (by rewrite He). done.
  - by rewrite Hfits.
Qed.

Lemma delete_expense_binds_first db expense_id :
  (∀ k, is_Some (expenses db !! k) → fits_int64 k = true) →
  fits_int64 expense_id = false →
  delete_expense expense_id db = (overflow_error, db).
Proof.
  intros Hids Hfits. unfold delete_expense, delete_where_id.
  destruct (expenses db !! expense_id) as [e|] eqn:He.
  - rewrite Hids in Hfits by (by rewrite He). done.
  - simpl. by rewrite Hfits.
Qed.

(** ** Row ids *)

Lemma last_rowid_bound (t : gmap Z Expense) k e :
  t !! k = Some e → ∃ m, last_rowid t = Some m ∧ k ≤ m.
Proof.
  unfold last_rowid. revert k e.
  apply (map_fold_weak_ind
           (λ r (m : gmap Z Expense),
              ∀ k e, m !! k = Some e → ∃ mx, r = Some mx ∧ k ≤ mx)).
  - intros k e. by rewrite lookup_empty.
  - intros i x m r Hi IH k e. rewrite lookup_insert. case_decide.
    + intros _. subst. destruct r; eexists; split; try done; lia.
    + intros Hk. destruct (IH k e Hk) as (mx & -> & Hle).
      eexists; split; [done|]. lia.
Qed.

(** The id an insertion takes belongs to no row of the table. *)
Lemma new_rowid_fresh (db : Db) : expenses db !! new_rowid db = None.
Proof.
  destruct (expenses db !! new_rowid db) as [e|] eqn:He; [|done].
  apply last_rowid_bound in He as (m & Hm & Hle).
  unfold new_rowid in Hle. rewrite Hm in Hle. lia.
Qed.

(** The spec's scenario: two expenses of one category are summarised in
    one row with their total and their number. *)
Example get_summary_scenario :
  (get_summary None None
     (run [AddExpense clk0 50 "Food" "" "" (Some "2024-01-01");
           AddExpense clk0 20 "Food" "" "" (Some "2024-01-02")] init_db)).1
  = SummaryReport [("Food", 70%Q, 2%nat)].
Proof. reflexivity. Qed.

Example get_expenses_scenario :
  (λ r : Row, (r.1, date r.2))
    <$> listed (get_expenses None None None db_scenario).1
  = [(3, "2024-03-01"); (2, "2024-01-02"); (1, "2024-01-01")].
Proof. reflexivity. Qed.

(** ** add_expense *)

(** C1: whatever the other arguments, [add_expense] with an amount that is
    zero or negative returns the text "Error: Amount must be positive" and
    the database is the one before the call: nothing is persisted. *)
Theorem add_expense_rejects_nonpositive_amount
    (clk : Clock) (a : Q) (cat desc sub : string) (d : option string)
    (db : Db) :
  (a <= 0)%Q →
  add_expense clk a cat desc sub d db
  = (Message "Error: Amount must be positive", db).
Proof.
  intros Ha. unfold add_expense.
  by rewrite (proj2 (Qle_bool_iff a 0) Ha).
Qed.

Lemma add_expense_rejects_nonpositive_amount_witness :
  (-5 <= 0)%Q ∧
  add_expense clk0 (-5) "Food" "lunch" "" (Some "2024-01-01") db_scenario
  = (Message "Error: Amount must be positive", db_scenario).
Proof.
  split.
  - vm_compute. discriminate.
  - apply (add_expense_rejects_nonpositive_amount clk0 (-5)).
    vm_compute. discriminate.
Defined.

(** ** get_expenses: the rows fetched *)

Lemma listed_get_expenses sd ed cat db :
  listed (get_expenses sd ed cat db).1 = get_expenses_rows sd ed cat db.
Proof.
  unfold get_expenses. by destruct (get_expenses_rows sd ed cat db).
Qed.

Lemma get_expenses_keeps_db sd ed cat db : (get_expenses sd ed cat db).2 = db.
Proof.
  unfold get_expenses. by destruct (get_expenses_rows sd ed cat db).
Qed.

Lemma elem_of_get_expenses_rows sd ed cat db (r : Row) :
  r ∈ get_expenses_rows sd ed cat db ↔
  expenses db !! r.1 = Some r.2 ∧
  where_ (if_truthy sd DateGe ++ if_truthy ed DateLe
            ++ if_truthy cat CategoryEq) r.
Proof.
  unfold get_expenses_rows.
  rewrite merge_sort_Permutation, list_elem_of_filter, elem_of_map_to_list'.
  tauto.
Qed.

Lemma NoDup_get_expenses_ids sd ed cat db :
  NoDup (get_expenses_rows sd ed cat db).*1.
Proof.
  unfold get_expenses_rows. rewrite merge_sort_Permutation.
  apply (sublist_NoDup _ (map_to_list (expenses db)).*1).
  - apply NoDup_fst_map_to_list.
  - apply fmap_sublist, sublist_filter.
Qed.

(** ** edit_expense *)

(** C3, as the code has it: [edit_expense] on an id no row has returns the
    not-found text, whatever fields are supplied, when the id fits a signed
    64-bit integer, and raises OverflowError when it does not; on an id a
    row has, with every optional field omitted, it returns "Error: No
    fields to update".  In all three cases the database is the one before
    the call. *)
Theorem edit_expense_errors (db : Db) (expense_id : Z) :
  (expenses db !! expense_id = None →
   - 2 ^ 63 ≤ expense_id < 2 ^ 63 →
   ∀ a cat sub desc d,
     edit_expense expense_id a cat sub desc d db
     = (Message ("Error: Expense with ID " +:+ Text.of_int expense_id
                   +:+ " not found"), db))
  ∧ (expenses db !! expense_id = None →
     ¬ (- 2 ^ 63 ≤ expense_id < 2 ^ 63) →
     ∀ a cat sub desc d,
       edit_expense expense_id a cat sub desc d db
       = (Raises "OverflowError", db))
  ∧ (∀ e, expenses db !! expense_id = Some e →
     edit_expense expense_id None None None None None db
     = (Message "Error: No fields to update", db)).
Proof.
  unfold edit_expense. split; [|split].
  - intros -> Hfits. by rewrite (proj2 (fits_int64_spec expense_id) Hfits).
  - intros -> Hfits a cat sub desc d.
    destruct (fits_int64 expense_id) eqn:Hf; [|done].
    by apply fits_int64_spec in Hf.
  - by intros e ->.
Qed.

Lemma edit_expense_errors_witness :
  edit_expense 9 (Some 4%Q) None (Some "x") None None db_scenario
  = (Message "Error: Expense with ID 9 not found", db_scenario)
  ∧ edit_expense (2 ^ 63) (Some 4%Q) None (Some "x") None None db_scenario
    = (Raises "OverflowError", db_scenario)
  ∧ edit_expense 2 None None None None None db_scenario
    = (Message "Error: No fields to update", db_scenario).
Proof.
  split; [|split].
  - apply (proj1 (edit_expense_errors db_scenario 9)); [reflexivity|lia].
  - apply (proj1 (proj2 (edit_expense_errors db_scenario (2 ^ 63))));
      [reflexivity|lia].
  - eapply (proj2 (proj2 (edit_expense_errors db_scenario 2))). reflexivity.
Defined.

(** C3 as stated fails: the id 2^63 has no row, and [edit_expense] on it
    does not return the not-found text; the call raises OverflowError. *)
Lemma edit_expense_unknown_id_overflow :
  ¬ (∀ (db : Db) (expense_id : Z),
       expenses db !! expense_id = None →
       ∀ a cat sub desc d,
         edit_expense expense_id a cat sub desc d db
         = (Message (not_found expense_id), db)).
Proof.
  intros H.
  specialize (H db_scenario (2 ^ 63) eq_refl (Some 4%Q) None None None None).
  apply (f_equal fst) in H. vm_compute in H. discriminate.
Qed.

(** C10, as the code has it: when the id has no row and every optional
    field is omitted, the reply is never "Error: No fields to update": the
    existence check comes first.  The reply is the not-found text when the
    id fits a signed 64-bit integer; when it does not, the call raises
    OverflowError. *)
Theorem edit_expense_not_found_first (db : Db) (expense_id : Z) :
  expenses db !! expense_id = None →
  (edit_expense expense_id None None None None None db).1
  ≠ Message "Error: No fields to update"
  ∧ (- 2 ^ 63 ≤ expense_id < 2 ^ 63 →
     edit_expense expense_id None None None None None db
     = (Message ("Error: Expense with ID " +:+ Text.of_int expense_id
                   +:+ " not found"), db))
  ∧ (¬ (- 2 ^ 63 ≤ expense_id < 2 ^ 63) →
     edit_expense expense_id None None None None None db
     = (Raises "OverflowError", db)).
Proof.
  intros H. unfold edit_expense. rewrite H.
  pose proof (fits_int64_spec expense_id) as Hspec.
  destruct (fits_int64 expense_id).
  - split; [unfold not_found; simpl; discriminate|].
    split; [done|]. intros Hfits. destruct Hfits. by apply Hspec.
  - split; [done|].
    split; [|done]. intros Hfits. by apply Hspec in Hfits.
Qed.

Lemma edit_expense_not_found_first_witness :
  (edit_expense 9 None None None None None db_scenario).1
  ≠ Message "Error: No fields to update"
  ∧ edit_expense 9 None None None None None db_scenario
    = (Message "Error: Expense with ID 9 not found", db_scenario)
  ∧ edit_expense (- 2 ^ 63 - 1) None None None None None db_scenario
    = (Raises "OverflowError", db_scenario).
Proof.
  destruct (edit_expense_not_found_first db_scenario 9 eq_refl)
    as (Hno & Hfound & _).
  destruct (edit_expense_not_found_first db_scenario (- 2 ^ 63 - 1) eq_refl)
    as (_ & _ & Hraise).
  split; [exact Hno|]. split; [apply Hfound; lia|apply Hraise; lia].
Defined.

(** C10 as stated fails: the id 2^63 has no row and every optional field
    is omitted, and the reply is not the not-found text; the call raises
    OverflowError. *)
Lemma edit_expense_no_fields_overflow :
  ¬ (∀ (db : Db) (expense_id : Z),
       expenses db !! expense_id = None →
       (edit_expense expense_id None None None None None db).1
       = Message (not_found expense_id)).
Proof.
  intros H. specialize (H db_scenario (2 ^ 63) eq_refl).
  vm_compute in H. discriminate.
Qed.

(** Without a row of the id nothing is written. *)
Lemma edit_expense_no_row db expense_id a cat sub desc d :
  expenses db !! expense_id = None →
  (edit_expense expense_id a cat sub desc d db).2 = db.
Proof.
  intros H. unfold edit_expense. rewrite H.
  by destruct (fits_int64 expense_id).
Qed.

Lemma delete_expense_no_row db expense_id :
  expenses db !! expense_id = None → (delete_expense expense_id db).2 = db.
Proof.
  intros H. unfold delete_expense, delete_where_id. rewrite H. simpl.
  by destruct (fits_int64 expense_id).
Qed.

(** The row an UPDATE built from the supplied fields leaves: a supplied
    field takes its value, an omitted one keeps the old value. *)
Lemma foldl_assign_updates e a cat sub desc d :
  foldl assign e
    (if_not_None a SetAmount ++ if_not_None cat SetCategory
       ++ if_not_None sub SetSubcategory ++ if_not_None desc SetDescription
       ++ if_not_None d SetDate)
  = {| amount := default (amount e) a;
       category := default (category e) cat;
       subcategory := default (subcategory e) sub;
       description := default (description e) desc;
       date := default (date e) d;
       created_at := created_at e |}.
Proof. by destruct e, a, cat, sub, desc, d. Qed.

Lemma edit_expense_db e db expense_id a cat sub desc d :
  expenses db !! expense_id = Some e →
  (edit_expense expense_id a cat sub desc d db).2
  = {| expenses :=
         update_where_id
           (if_not_None a SetAmount ++ if_not_None cat SetCategory
              ++ if_not_None sub SetSubcategory
              ++ if_not_None desc SetDescription ++ if_not_None d SetDate)
           expense_id (expenses db);
       sqlite_sequence := sqlite_sequence db |}.
Proof.
  intros He. unfold edit_expense. rewrite He.
  destruct a, cat, sub, desc, d; try done.
  simpl. destruct db as [t n]. simpl in *. f_equal.
  unfold update_where_id. apply map_eq. intros j.
  rewrite lookup_alter. case_decide; [subst; by rewrite He|done].
Qed.

(** The table after [edit_expense] on an existing row. *)
Lemma edit_expense_row (db : Db) (expense_id : Z) (e : Expense)
    (a : option Q) (cat sub desc d : option string) :
  expenses db !! expense_id = Some e →
  expenses (edit_expense expense_id a cat sub desc d db).2 !! expense_id
  = Some {| amount := default (amount e) a;
            category := default (category e) cat;
            subcategory := default (subcategory e) sub;
            description := default (description e) desc;
            date := default (date e) d;
            created_at := created_at e |}
  ∧ (∀ j, j ≠ expense_id →
       expenses (edit_expense expense_id a cat sub desc d db).2 !! j
       = expenses db !! j)
  ∧ sqlite_sequence (edit_expense expense_id a cat sub desc d db).2
    = sqlite_sequence db.
Proof.
  intros He. rewrite (edit_expense_db e) by done. simpl.
  unfold update_where_id. split; [|split; [|done]].
  - by rewrite lookup_alter_eq, He, <-foldl_assign_updates.
  - intros j Hj. by rewrite lookup_alter_ne.
Qed.

(** C4: on an existing row, [edit_expense] leaves a row under the same id
    in which each supplied field has the supplied value (the empty string
    included) and each omitted field, and [created_at], has the value it
    had; every other row, and the id counter, is as before. *)
Theorem edit_expense_sets_exactly_supplied_fields
    (db : Db) (expense_id : Z) (e : Expense) (a : option Q)
    (cat sub desc d : option string) :
  expenses db !! expense_id = Some e →
  let db' := (edit_expense expense_id a cat sub desc d db).2 in
  expenses db' !! expense_id
  = Some {| amount := default (amount e) a;
            category := default (category e) cat;
            subcategory := default (subcategory e) sub;
            description := default (description e) desc;
            date := default (date e) d;
            created_at := created_at e |}
  ∧ (∀ j, j ≠ expense_id → expenses db' !! j = expenses db !! j)
  ∧ sqlite_sequence db' = sqlite_sequence db.
Proof.
  intros He db'. subst db'. rewrite (edit_expense_db e) by done. simpl.
  unfold update_where_id. split; [|split; [|done]].
  - by rewrite lookup_alter_eq, He, <-foldl_assign_updates.
  - intros j Hj. by rewrite lookup_alter_ne.
Qed.

Lemma edit_expense_sets_exactly_supplied_fields_witness :
  let db' :=
    (edit_expense 2 None (Some "Bills") (Some "") None None db_scenario).2 in
  expenses db' !! 2
  = Some {| amount := 20; category := "Bills"; subcategory := "";
            description := ""; date := "2024-01-02";
            created_at := "2024-03-01T10:00:00" |}
  ∧ (∀ j, j ≠ 2 → expenses db' !! j = expenses db_scenario !! j)
  ∧ sqlite_sequence db' = sqlite_sequence db_scenario.
Proof.
  apply (edit_expense_sets_exactly_supplied_fields db_scenario 2
           {| amount := 20; category := "Food"; subcategory := "";
              description := ""; date := "2024-01-02";
              created_at := "2024-03-01T10:00:00" |}
           None (Some "Bills") (Some "") None None).
  reflexivity.
Defined.

(** C8: on an existing row, [edit_expense] with an amount supplied, be it
    positive, zero or negative, succeeds and the row then holds that amount:
    the amount is not validated on edit. *)
Theorem edit_expense_stores_any_amount
    (db : Db) (expense_id : Z) (e : Expense) (a : Q)
    (cat sub desc d : option string) :
  expenses db !! expense_id = Some e →
  ∃ db' e',
    edit_expense expense_id (Some a) cat sub desc d db
    = (ExpenseUpdated expense_id, db')
    ∧ expenses db' !! expense_id = Some e'
    ∧ amount e' = a.
Proof.
  intros He.
  destruct (edit_expense_row db expense_id e (Some a) cat sub desc d He)
    as (Hrow & _ & _).
  eexists _, _. split; [|split; [exact Hrow|done]].
  unfold edit_expense. by rewrite He.
Qed.

Lemma edit_expense_stores_any_amount_witness :
  (-5 <= 0)%Q ∧
  ∃ db' e',
    edit_expense 2 (Some (-5)%Q) None None None None db_scenario
    = (ExpenseUpdated 2, db')
    ∧ expenses db' !! 2 = Some e'
    ∧ amount e' = (-5)%Q.
Proof.
  split; [vm_compute; discriminate|].
  eapply (edit_expense_stores_any_amount db_scenario 2). reflexivity.
Defined.

(** ** delete_expense *)

(** C5, as the code has it: [delete_expense] on an id no row has affects
    zero rows; it returns the not-found text when the id fits a signed
    64-bit integer and raises OverflowError when it does not, and the
    database is the one before the call.  On an id a row has, it succeeds
    and that row is gone and only that row: no later [get_expenses] lists
    the id and a later [edit_expense] on it returns the not-found text (the
    id of a row of the table fits 64 bits). *)
Theorem delete_expense_spec (db : Db) (expense_id : Z) :
  (expenses db !! expense_id = None →
   (delete_where_id expense_id (expenses db)).2 = 0
   ∧ (- 2 ^ 63 ≤ expense_id < 2 ^ 63 →
      delete_expense expense_id db
      = (Message ("Error: Expense with ID " +:+ Text.of_int expense_id
                    +:+ " not found"), db))
   ∧ (¬ (- 2 ^ 63 ≤ expense_id < 2 ^ 63) →
      delete_expense expense_id db = (Raises "OverflowError", db)))
  ∧ (∀ e, expenses db !! expense_id = Some e →
     ∃ db',
       delete_expense expense_id db = (ExpenseDeleted expense_id, db')
       ∧ expenses db' !! expense_id = None
       ∧ (∀ j, j ≠ expense_id → expenses db' !! j = expenses db !! j)
       ∧ (∀ sd ed cat (r : Row),
            r ∈ listed (get_expenses sd ed cat db').1 → r.1 ≠ expense_id)
       ∧ (- 2 ^ 63 ≤ expense_id < 2 ^ 63 →
          ∀ a cat sub desc d,
            edit_expense expense_id a cat sub desc d db'
            = (Message ("Error: Expense with ID " +:+ Text.of_int expense_id
                          +:+ " not found"), db'))).
Proof.
  pose proof (fits_int64_spec expense_id) as Hspec.
  unfold delete_expense, delete_where_id. split.
  - intros ->. simpl. split; [done|].
    destruct (fits_int64 expense_id).
    + split; [done|]. intros Hfits. destruct Hfits. by apply Hspec.
    + split; [|done]. intros Hfits. by apply Hspec in Hfits.
  - intros e ->. simpl. eexists. split; [done|]. simpl.
    split; [apply lookup_delete_eq|].
    split; [intros j Hj; by apply lookup_delete_ne|].
    split.
    + intros sd ed cat r. rewrite listed_get_expenses.
      rewrite elem_of_get_expenses_rows. simpl. intros [Hr _] Heq.
      by rewrite Heq, lookup_delete_eq in Hr.
    + intros Hfits a cat sub desc d. unfold edit_expense. simpl.
      by rewrite lookup_delete_eq, (proj2 Hspec Hfits).
Qed.

Lemma delete_expense_spec_witness :
  delete_expense 9 db_scenario
  = (Message "Error: Expense with ID 9 not found", db_scenario)
  ∧ delete_expense (2 ^ 63) db_scenario
    = (Raises "OverflowError", db_scenario)
  ∧ ∃ db',
      delete_expense 2 db_scenario = (ExpenseDeleted 2, db')
      ∧ expenses db' !! 2 = None
      ∧ (∀ sd ed cat (r : Row),
           r ∈ listed (get_expenses sd ed cat db').1 → r.1 ≠ 2)
      ∧ (∀ a cat sub desc d,
           edit_expense 2 a cat sub desc d db'
           = (Message "Error: Expense with ID 2 not found", db')).
Proof.
  destruct (proj1 (delete_expense_spec db_scenario 9) eq_refl)
    as (_ & Hnone & _).
  destruct (proj1 (delete_expense_spec db_scenario (2 ^ 63)) eq_refl)
    as (_ & _ & Hraise).
  destruct (proj2 (delete_expense_spec db_scenario 2)
              {| amount := 20; category := "Food"; subcategory := "";
                 description := ""; date := "2024-01-02";
                 created_at := "2024-03-01T10:00:00" |} eq_refl)
    as (db' & Hdel & Hgone & _ & Hlist & Hedit).
  split; [apply Hnone; lia|]. split; [apply Hraise; lia|].
  exists db'. repeat split; [done|done|done|]. apply Hedit. lia.
Defined.

(** C5 as stated fails: the id 2^63 has no row, and [delete_expense] on it
    does not return the not-found text; the call raises OverflowError. *)
Lemma delete_expense_unknown_id_overflow :
  ¬ (∀ (db : Db) (expense_id : Z),
       expenses db !! expense_id = None →
       delete_expense expense_id db = (Message (not_found expense_id), db)).
Proof.
  intros H. specialize (H db_scenario (2 ^ 63) eq_refl).
  apply (f_equal fst) in H. vm_compute in H. discriminate.
Qed.

(** ** get_expenses: filters *)

Lemma where_app cs1 cs2 (r : Row) :
  where_ (cs1 ++ cs2) r ↔ where_ cs1 r ∧ where_ cs2 r.
Proof. unfold where_. rewrite forallb_app, andb_true_iff. tauto. Qed.

Lemma where_if_truthy x c (r : Row) :
  where_ (if_truthy x c) r ↔ when_nonempty x (λ s, holds r.2 (c s) = true).
Proof.
  unfold where_, if_truthy, when_nonempty. destruct x as [s|]; [|done].
  destruct (String.eqb_spec s ""); simpl.
  - tauto.
  - rewrite andb_true_r. tauto.
Qed.

Lemma where_date_range sd ed (r : Row) :
  where_ (if_truthy sd DateGe ++ if_truthy ed DateLe) r ↔
  when_nonempty sd (λ s, Text.ge (date r.2) s)
  ∧ when_nonempty ed (λ s, Text.le (date r.2) s).
Proof.
  rewrite where_app, !where_if_truthy. simpl.
  unfold when_nonempty. destruct sd, ed;
    rewrite ?geb_ge, ?leb_le; tauto.
Qed.

Lemma where_get_expenses sd ed cat (r : Row) :
  where_ (if_truthy sd DateGe ++ if_truthy ed DateLe
            ++ if_truthy cat CategoryEq) r ↔
  satisfies_nonempty sd ed cat r.2.
Proof.
  rewrite (assoc (++)), where_app, where_date_range, where_if_truthy.
  unfold satisfies_nonempty, when_nonempty. simpl.
  destruct cat; rewrite ?String.eqb_eq; tauto.
Qed.

(** C2, as the code has it: [get_expenses] lists, once each, exactly the
    rows of the table that satisfy every filter that is supplied and is not
    the empty string: [date >= start_date], [date <= end_date] and
    [category = category].  A filter given as the empty string is not
    applied. *)
Theorem get_expenses_lists_exactly_the_filtered_rows
    (db : Db) (sd ed cat : option string) :
  NoDup (listed (get_expenses sd ed cat db).1)
  ∧ ∀ r : Row,
      r ∈ listed (get_expenses sd ed cat db).1 ↔
      expenses db !! r.1 = Some r.2 ∧ satisfies_nonempty sd ed cat r.2.
Proof.
  rewrite listed_get_expenses. split.
  - eapply NoDup_fmap_1, NoDup_get_expenses_ids.
  - intros r. by rewrite elem_of_get_expenses_rows, where_get_expenses.
Qed.

(** C2 as stated fails: with [end_date] supplied as the empty string the
    listing is not the set of rows with [date <= end_date]; the row of
    2024-01-01 is listed. *)
Lemma get_expenses_empty_filter_not_applied :
  ¬ (∀ r : Row,
       r ∈ listed (get_expenses None (Some "") None db_scenario).1 ↔
       expenses db_scenario !! r.1 = Some r.2
       ∧ satisfies_supplied None (Some "") None r.2).
Proof.
  intros H.
  pose (e := {| amount := 50; category := "Food"; subcategory := "";
                description := ""; date := "2024-01-01";
                created_at := "2024-03-01T10:00:00" |}).
  destruct (proj1 (H (1, e))) as (_ & _ & Hle & _).
  - rewrite listed_get_expenses, elem_of_get_expenses_rows.
    split; reflexivity.
  - apply Hle. reflexivity.
Qed.

(** ** get_expenses: order *)

Lemma order_by_strict (r1 r2 : Row) :
  r1.1 ≠ r2.1 → order_by_date_desc_id_desc r1 r2 →
  date_desc_then_id_desc r1 r2.
Proof.
  unfold order_by_date_desc_id_desc, date_desc_then_id_desc, Text.lt.
  intros Hne. destruct (Text.compare (date r1.2) (date r2.2)) eqn:Hc.
  - apply compare_eq in Hc. intros Hle. right. split; [done|lia].
  - done.
  - apply compare_gt_lt in Hc. by left.
Qed.

Lemma StronglySorted_strict (l : list Row) :
  NoDup l.*1 → StronglySorted order_by_date_desc_id_desc l →
  StronglySorted date_desc_then_id_desc l.
Proof.
  induction l as [|r l IH]; [constructor|].
  rewrite fmap_cons, NoDup_cons. intros [Hr Hl] Hs.
  apply StronglySorted_inv in Hs as [Hs Hall].
  constructor; [by apply IH|].
  rewrite Forall_forall in Hall. apply Forall_forall. intros r' Hr'.
  apply order_by_strict; [|by apply Hall].
  intros Heq. apply Hr. rewrite Heq. by apply list_elem_of_fmap_2.
Qed.

(** C7: whatever the table and the filters, in the sequence [get_expenses]
    lists every row stands before all rows of an earlier date and, among
    the rows of its own date, before all rows of a smaller id. *)
Theorem get_expenses_sorted (db : Db) (sd ed cat : option string) :
  StronglySorted date_desc_then_id_desc (listed (get_expenses sd ed cat db).1).
Proof.
  rewrite listed_get_expenses. apply StronglySorted_strict.
  - apply NoDup_get_expenses_ids.
  - unfold get_expenses_rows. apply StronglySorted_merge_sort; apply _.
Qed.

(** ** Categories of stored rows *)

Lemma get_summary_keeps_db sd ed db : (get_summary sd ed db).2 = db.
Proof.
  unfold get_summary. by destruct (get_summary_rows sd ed db).
Qed.

Lemma call_keeps_categories_nonempty c db :
  supplies_nonempty_category c → categories_nonempty db →
  categories_nonempty (call c db).2.
Proof.
  intros Hc Hdb.
  destruct c as [clk a cat desc sub d|sd ed cat|i a cat sub desc d|i|sd ed];
    simpl in *.
  - unfold add_expense. destruct (Qle_bool a 0); [done|].
    intros j e. simpl. rewrite lookup_insert. case_decide.
    + by intros [= <-].
    + apply Hdb.
  - by rewrite get_expenses_keeps_db.
  - destruct (expenses db !! i) as [e0|] eqn:He0.
    + destruct (edit_expense_row db i e0 a cat sub desc d He0)
        as (Hi & Hother & _).
      intros j e. destruct (decide (j = i)) as [->|Hj].
      * rewrite Hi. intros [= <-]. simpl.
        destruct cat as [cat|]; simpl; [done|by apply (Hdb i)].
      * rewrite Hother by done. apply Hdb.
    + by rewrite edit_expense_no_row.
  - unfold delete_expense, delete_where_id.
    destruct (expenses db !! i) as [e0|]; simpl;
      [|by destruct (fits_int64 i)].
    intros j e. simpl. rewrite lookup_delete_Some.
    intros [_ ?]. by apply (Hdb j).
  - by rewrite get_summary_keeps_db.
Qed.

Lemma run_keeps_categories_nonempty calls db :
  Forall supplies_nonempty_category calls → categories_nonempty db →
  categories_nonempty (run calls db).
Proof.
  unfold run. intros Hcalls. revert db.
  induction Hcalls as [|c calls Hc _ IH]; intros db Hdb; simpl; [done|].
  by apply IH, call_keeps_categories_nonempty.
Qed.

(** C9, as the code has it: the category is stored as supplied, without a
    check.  After any sequence of calls, from the freshly initialised
    database, in which every category supplied to [add_expense] or to
    [edit_expense] is not the empty string, every stored row has a
    non-empty category. *)
Theorem categories_nonempty_when_supplied_nonempty (calls : list Call) :
  Forall supplies_nonempty_category calls →
  categories_nonempty (run calls init_db).
Proof.
  intros Hcalls. apply run_keeps_categories_nonempty; [done|].
  intros j e. simpl. by rewrite lookup_empty.
Qed.

Lemma categories_nonempty_when_supplied_nonempty_witness :
  categories_nonempty
    (run [AddExpense clk0 50 "Food" "" "" (Some "2024-01-01");
          EditExpense 1 None (Some "Bills") None None None;
          EditExpense 1 (Some 7%Q) None (Some "") None None;
          DeleteExpense 4] init_db).
Proof.
  apply categories_nonempty_when_supplied_nonempty.
  repeat constructor; simpl; discriminate.
Defined.

(** C9 as stated fails: [add_expense] with the empty string as category
    stores it, so a reachable database has a row with an empty category. *)
Lemma reachable_empty_category :
  ¬ (∀ db, reachable db → categories_nonempty db).
Proof.
  intros H.
  apply (H db_empty_category
           ltac:(by exists [AddExpense clk0 1 "" "" "" None]) 1
           {| amount := 1; category := ""; subcategory := "";
              description := ""; date := "2024-03-01";
              created_at := "2024-03-01T10:00:00" |});
    reflexivity.
Qed.

(** ** get_summary: grouping *)

(** Grouping yields one summary row for a category. *)
Lemma accumulate_categories c a (summary : list SummaryRow) :
  summary_category <$> accumulate c a summary
  = if decide (c ∈ summary_category <$> summary)
    then summary_category <$> summary
    else (summary_category <$> summary) ++ [c].
Proof.
  induction summary as [|g summary IH]; cbn [accumulate].
  - rewrite fmap_nil. case_decide as H; [by apply elem_of_nil in H|done].
  - rewrite (fmap_cons _ g).
    destruct (String.eqb_spec (summary_category g) c) as [Hg|Hg].
    + rewrite fmap_cons. unfold summary_category at 1. cbn [fst].
      rewrite decide_True by (rewrite Hg; apply list_elem_of_here).
      by rewrite Hg.
    + rewrite fmap_cons, IH. repeat case_decide; try done.
      * exfalso. eauto using list_elem_of_further.
      * exfalso. match goal with H : _ ∈ _ :: _ |- _ =>
          apply elem_of_cons in H as [?|?] end; eauto.
Qed.

Lemma accumulate_categories_NoDup c a (summary : list SummaryRow) :
  NoDup (summary_category <$> summary) →
  NoDup (summary_category <$> accumulate c a summary).
Proof.
  intros H. rewrite accumulate_categories. case_decide; [done|].
  apply NoDup_app. split; [done|]. split; [|apply NoDup_singleton].
  intros x Hx ->%list_elem_of_singleton. done.
Qed.

Lemma group_by_category_NoDup (rows : list Row) :
  NoDup (summary_category <$> group_by_category rows).
Proof.
  unfold group_by_category.
  assert (NoDup (summary_category <$> ([] : list SummaryRow))) as H
    by constructor.
  revert H. generalize ([] : list SummaryRow).
  induction rows as [|r rows IH]; intros summary H; cbn [foldl]; [done|].
  by apply IH, accumulate_categories_NoDup.
Qed.

Lemma accumulate_not_nil c a (summary : list SummaryRow) :
  accumulate c a summary ≠ [].
Proof.
  destruct summary as [|g summary]; cbn [accumulate]; [done|].
  by destruct (String.eqb (summary_category g) c).
Qed.

Lemma group_by_category_nil (rows : list Row) :
  group_by_category rows = [] → rows = [].
Proof.
  unfold group_by_category. destruct rows as [|r rows]; [done|].
  cbn [foldl]. generalize (accumulate_not_nil (category r.2) (amount r.2) []).
  generalize (accumulate (category r.2) (amount r.2) []).
  induction rows as [|r' rows IH]; intros summary Hs; cbn [foldl]; [done|].
  intros H. apply IH in H; [done|apply accumulate_not_nil].
Qed.

Lemma summary_of_category_absent c (summary : list SummaryRow) :
  c ∉ summary_category <$> summary → summary_of_category c summary = [].
Proof.
  unfold summary_of_category. induction summary as [|g summary IH]; [done|].
  rewrite fmap_cons, not_elem_of_cons, filter_cons. intros [Hg Hc].
  rewrite decide_False by done. by apply IH.
Qed.

(** * Further properties of the tools *)

(** ** add_expense: the inserted row *)

Lemma Qle_bool_false (a : Q) : Qle_bool a 0 = false ↔ (0 < a)%Q.
Proof.
  rewrite <-not_true_iff_false, Qle_bool_iff. split.
  - apply Qnot_le_lt.
  - apply Qlt_not_le.
Qed.

Lemma add_expense_ok clk a cat desc sub d db :
  (0 < a)%Q →
  add_expense clk a cat desc sub d db
  = (ExpenseAdded (new_rowid db) a cat (default (today clk) d),
     {| expenses :=
          <[new_rowid db := added_row clk a cat desc sub d]> (expenses db);
        sqlite_sequence := new_rowid db |}).
Proof.
  intros Ha%Qle_bool_false. unfold add_expense. rewrite Ha. by destruct d.
Qed.

Lemma new_rowid_above_sequence db : sqlite_sequence db < new_rowid db.
Proof. unfold new_rowid. lia. Qed.

(** X1: [add_expense] with a positive amount answers with an id that no
    row had, larger than the counter; afterwards that id holds a row with
    the arguments as given, the date being the one supplied (the empty
    string included) or today's when omitted, and [created_at] the current
    instant; every other row is as before and the counter is the new id. *)
Theorem add_expense_persists (clk : Clock) (a : Q) (cat desc sub : string)
    (d : option string) (db : Db) :
  (0 < a)%Q →
  ∃ expense_id db',
    add_expense clk a cat desc sub d db
    = (ExpenseAdded expense_id a cat (default (today clk) d), db')
    ∧ expenses db !! expense_id = None
    ∧ sqlite_sequence db < expense_id
    ∧ expenses db' !! expense_id
      = Some {| amount := a; category := cat; subcategory := sub;
                description := desc; date := default (today clk) d;
                created_at := now_iso clk |}
    ∧ (∀ j, j ≠ expense_id → expenses db' !! j = expenses db !! j)
    ∧ sqlite_sequence db' = expense_id.
Proof.
  intros Ha. eexists _, _. split; [by apply add_expense_ok|]. simpl.
  split; [apply new_rowid_fresh|].
  split; [apply new_rowid_above_sequence|].
  split; [apply lookup_insert_eq|].
  split; [|done]. intros j Hj. by apply lookup_insert_ne.
Qed.

Lemma add_expense_persists_witness :
  ∃ db',
    add_expense clk0 12 "Bills" "rent" "Rent" (Some "") db_scenario
    = (ExpenseAdded 4 12 "Bills" "", db')
    ∧ expenses db' !! 4
      = Some {| amount := 12; category := "Bills"; subcategory := "Rent";
                description := "rent"; date := "";
                created_at := "2024-03-01T10:00:00" |}.
Proof.
  destruct (add_expense_persists clk0 12 "Bills" "rent" "Rent" (Some "")
              db_scenario eq_refl)
    as (i & db' & Hadd & _ & _ & Hrow & _).
  assert (i = 4) as ->.
  { apply (f_equal fst) in Hadd. by injection Hadd as <-. }
  exists db'. done.
Defined.

(** ** add_expense and delete_expense *)

(** X9: deleting the expense just added succeeds and gives back the table
    as it was before the addition; the counter keeps the id, which is
    therefore not given out again. *)
Theorem delete_added_expense (clk : Clock) (a : Q) (cat desc sub : string)
    (d : option string) (db : Db) :
  (0 < a)%Q →
  ∃ expense_id db1,
    add_expense clk a cat desc sub d db
    = (ExpenseAdded expense_id a cat (default (today clk) d), db1)
    ∧ delete_expense expense_id db1
      = (ExpenseDeleted expense_id,
         {| expenses := expenses db; sqlite_sequence := expense_id |}).
Proof.
  intros Ha. eexists _, _. split; [by apply add_expense_ok|].
  unfold delete_expense, delete_where_id. simpl.
  rewrite lookup_insert_eq. simpl.
  by rewrite delete_insert_eq, delete_id by apply new_rowid_fresh.
Qed.

Lemma delete_added_expense_witness :
  ∃ db1,
    add_expense clk0 12 "Bills" "rent" "Rent" None db_scenario
    = (ExpenseAdded 4 12 "Bills" "2024-03-01", db1)
    ∧ delete_expense 4 db1
      = (ExpenseDeleted 4,
         {| expenses := expenses db_scenario; sqlite_sequence := 4 |}).
Proof.
  destruct (delete_added_expense clk0 12 "Bills" "rent" "Rent" None
              db_scenario eq_refl) as (i & db1 & Hadd & Hdel).
  assert (i = 4) as ->.
  { apply (f_equal fst) in Hadd. by injection Hadd as <-. }
  exists db1. done.
Defined.

(** ** Row ids over sequences of calls *)

Lemma last_rowid_is_Some (t : gmap Z Expense) m :
  last_rowid t = Some m → is_Some (t !! m).
Proof.
  unfold last_rowid. revert m.
  apply (map_fold_weak_ind
           (λ r (t : gmap Z Expense), ∀ m, r = Some m → is_Some (t !! m))).
  - done.
  - intros i x t' r Hi IH m [= <-]. rewrite lookup_insert_is_Some.
    destruct r as [k'|]; [|by left].
    destruct (Z.max_spec i k') as [[_ ->]|[_ ->]]; [|by left].
    destruct (decide (i = k')); [by left|]. right. auto.
Qed.

Lemma new_rowid_next (db : Db) :
  ids_bounded db → new_rowid db = sqlite_sequence db + 1.
Proof.
  intros [Hseq Hids]. unfold new_rowid.
  destruct (last_rowid (expenses db)) as [m|] eqn:Hm; [|lia].
  apply last_rowid_is_Some in Hm as [e He]. apply Hids in He. lia.
Qed.

Lemma call_sequence_mono c db :
  sqlite_sequence db ≤ sqlite_sequence (call c db).2.
Proof.
  destruct c as [clk a cat desc sub d|sd ed cat|i a cat sub desc d|i|sd ed];
    simpl.
  - unfold add_expense. destruct (Qle_bool a 0); simpl; [done|].
    pose proof (new_rowid_above_sequence db). lia.
  - by rewrite get_expenses_keeps_db.
  - unfold edit_expense.
    destruct (expenses db !! i); [|by destruct (fits_int64 i)].
    by destruct a, cat, sub, desc, d.
  - unfold delete_expense, delete_where_id.
    by destruct (expenses db !! i), (fits_int64 i).
  - by rewrite get_summary_keeps_db.
Qed.

Lemma run_sequence_mono calls db :
  sqlite_sequence db ≤ sqlite_sequence (run calls db).
Proof.
  unfold run. revert db.
  induction calls as [|c calls IH]; intros db; simpl; [done|].
  etrans; [apply (call_sequence_mono c)|apply IH].
Qed.

Lemma call_keeps_ids_bounded c db :
  ids_bounded db → ids_bounded (call c db).2.
Proof.
  intros Hdb. pose proof Hdb as [Hseq Hids].
  destruct c as [clk a cat desc sub d|sd ed cat|i a cat sub desc d|i|sd ed];
    simpl.
  - unfold add_expense. destruct (Qle_bool a 0); [done|].
    pose proof (new_rowid_above_sequence db). split; simpl; [lia|].
    intros k e. rewrite lookup_insert. case_decide.
    + intros _. lia.
    + intros Hk%Hids. lia.
  - by rewrite get_expenses_keeps_db.
  - destruct (expenses db !! i) as [e0|] eqn:He0.
    + destruct (edit_expense_row db i e0 a cat sub desc d He0)
        as (Hi & Hother & Hs).
      split; rewrite Hs; [done|]. intros k e.
      destruct (decide (k = i)) as [->|Hk].
      * intros _. by apply (Hids i e0).
      * rewrite Hother by done. apply Hids.
    + by rewrite edit_expense_no_row.
  - unfold delete_expense, delete_where_id.
    destruct (expenses db !! i) as [e0|]; simpl;
      [|by destruct (fits_int64 i)].
    split; simpl; [done|]. intros k e. rewrite lookup_delete_Some.
    intros [_ Hk]. by apply (Hids k e).
  - by rewrite get_summary_keeps_db.
Qed.

Lemma init_db_ids_bounded : ids_bounded init_db.
Proof. split; simpl; [done|]. intros k e. by rewrite lookup_empty. Qed.

Lemma run_keeps_ids_bounded calls db :
  ids_bounded db → ids_bounded (run calls db).
Proof.
  unfold run. revert db.
  induction calls as [|c calls IH]; intros db Hdb; simpl; [done|].
  by apply IH, call_keeps_ids_bounded.
Qed.

Lemma run_app calls1 calls2 db :
  run (calls1 ++ calls2) db = run calls2 (run calls1 db).
Proof. unfold run. apply foldl_app. Qed.

(** X2: an id is given out once.  If a row has id [k] after some calls on
    the fresh database, then after any further calls (deletions included)
    [add_expense] with a positive amount answers with an id larger than
    [k]. *)
Theorem ids_never_reused (calls1 calls2 : list Call) (k : Z) (e : Expense)
    (clk : Clock) (a : Q) (cat desc sub : string) (d : option string) :
  expenses (run calls1 init_db) !! k = Some e →
  (0 < a)%Q →
  ∃ expense_id db',
    add_expense clk a cat desc sub d (run calls2 (run calls1 init_db))
    = (ExpenseAdded expense_id a cat (default (today clk) d), db')
    ∧ k < expense_id.
Proof.
  intros Hk Ha. eexists _, _. split; [by apply add_expense_ok|].
  destruct (run_keeps_ids_bounded calls1 init_db init_db_ids_bounded)
    as [_ Hids].
  apply Hids in Hk.
  pose proof (run_sequence_mono calls2 (run calls1 init_db)).
  pose proof (new_rowid_above_sequence (run calls2 (run calls1 init_db))).
  lia.
Qed.

Lemma ids_never_reused_witness :
  ∃ db',
    add_expense clk0 5 "Food" "" "" None
      (run [DeleteExpense 3; DeleteExpense 2]
         (run [AddExpense clk0 50 "Food" "" "" (Some "2024-01-01");
               AddExpense clk0 20 "Food" "" "" (Some "2024-01-02");
               AddExpense clk0 30 "Transport" "bus" "" None] init_db))
    = (ExpenseAdded 4 5 "Food" "2024-03-01", db')
    ∧ 3 < 4.
Proof.
  destruct (ids_never_reused
              [AddExpense clk0 50 "Food" "" "" (Some "2024-01-01");
               AddExpense clk0 20 "Food" "" "" (Some "2024-01-02");
               AddExpense clk0 30 "Transport" "bus" "" None]
              [DeleteExpense 3; DeleteExpense 2] 3
              {| amount := 30; category := "Transport"; subcategory := "";
                 description := "bus"; date := "2024-03-01";
                 created_at := "2024-03-01T10:00:00" |}
              clk0 5 "Food" "" "" None eq_refl eq_refl)
    as (i & db' & Hadd & Hlt).
  assert (i = 4) as ->.
  { apply (f_equal fst) in Hadd. by injection Hadd as <-. }
  exists db'. done.
Defined.

Lemma run_sequence_count calls db :
  ids_bounded db →
  sqlite_sequence (run calls db)
  = sqlite_sequence db + Z.of_nat (length (filter adds_row calls)).
Proof.
  unfold run. revert db.
  induction calls as [|c calls IH]; intros db Hdb; cbn [foldl].
  - rewrite filter_nil. simpl. lia.
  - rewrite IH by by apply call_keeps_ids_bounded. rewrite filter_cons.
    destruct c as [clk a cat desc sub d|sd ed cat|i a cat sub desc d|i|sd ed];
      simpl.
    + unfold add_expense. destruct (Qle_bool a 0) eqn:Ha.
      * rewrite decide_False by (simpl; congruence). done.
      * rewrite decide_True by done. simpl.
        rewrite new_rowid_next by done. lia.
    + by rewrite get_expenses_keeps_db.
    + pose proof (call_sequence_mono (EditExpense i a cat sub desc d) db).
      unfold edit_expense in *. simpl in *.
      destruct (expenses db !! i); [|by destruct (fits_int64 i)].
      by destruct a, cat, sub, desc, d.
    + unfold delete_expense, delete_where_id.
      by destruct (expenses db !! i), (fits_int64 i).
    + by rewrite get_summary_keeps_db.
Qed.

(** X13: ids are given out consecutively from 1.  After any sequence of
    calls on the fresh database, the counter is the number of calls of
    [add_expense] with a positive amount so far, and the next such call
    answers with that number plus one. *)
Theorem ids_count_additions (calls : list Call) (clk : Clock) (a : Q)
    (cat desc sub : string) (d : option string) :
  sqlite_sequence (run calls init_db)
  = Z.of_nat (length (filter adds_row calls))
  ∧ ((0 < a)%Q →
     (add_expense clk a cat desc sub d (run calls init_db)).1
     = ExpenseAdded (Z.of_nat (length (filter adds_row calls)) + 1) a cat
         (default (today clk) d)).
Proof.
  pose proof (run_sequence_count calls init_db init_db_ids_bounded) as Hc.
  simpl in Hc. split; [done|]. intros Ha.
  rewrite add_expense_ok by done. simpl.
  rewrite new_rowid_next, Hc;
    [done|apply run_keeps_ids_bounded, init_db_ids_bounded].
Qed.

Lemma ids_count_additions_witness :
  sqlite_sequence
    (run [AddExpense clk0 50 "Food" "" "" None;
          AddExpense clk0 (-1) "Food" "" "" None;
          DeleteExpense 1;
          AddExpense clk0 20 "Food" "" "" None] init_db) = 2
  ∧ (add_expense clk0 7 "Food" "" "" None
       (run [AddExpense clk0 50 "Food" "" "" None;
             AddExpense clk0 (-1) "Food" "" "" None;
             DeleteExpense 1;
             AddExpense clk0 20 "Food" "" "" None] init_db)).1
    = ExpenseAdded 3 7 "Food" "2024-03-01".
Proof.
  destruct (ids_count_additions
              [AddExpense clk0 50 "Food" "" "" None;
               AddExpense clk0 (-1) "Food" "" "" None;
               DeleteExpense 1;
               AddExpense clk0 20 "Food" "" "" None]
              clk0 7 "Food" "" "" None) as [Hseq Hadd].
  split; [exact Hseq|exact (Hadd eq_refl)].
Defined.

(** ** Amounts of stored rows *)

Lemma call_keeps_amounts_positive c db :
  edits_positive_amount c → amounts_positive db →
  amounts_positive (call c db).2.
Proof.
  intros Hc Hdb.
  destruct c as [clk a cat desc sub d|sd ed cat|i a cat sub desc d|i|sd ed];
    simpl in *.
  - unfold add_expense. destruct (Qle_bool a 0) eqn:Ha; [done|].
    apply Qle_bool_false in Ha.
    intros j e. simpl. rewrite lookup_insert. case_decide.
    + by intros [= <-].
    + apply Hdb.
  - by rewrite get_expenses_keeps_db.
  - destruct (expenses db !! i) as [e0|] eqn:He0.
    + destruct (edit_expense_row db i e0 a cat sub desc d He0)
        as (Hi & Hother & _).
      intros j e. destruct (decide (j = i)) as [->|Hj].
      * rewrite Hi. intros [= <-]. simpl.
        destruct a as [a|]; simpl; [done|by apply (Hdb i)].
      * rewrite Hother by done. apply Hdb.
    + by rewrite edit_expense_no_row.
  - unfold delete_expense, delete_where_id.
    destruct (expenses db !! i) as [e0|]; simpl;
      [|by destruct (fits_int64 i)].
    intros j e. simpl. rewrite lookup_delete_Some.
    intros [_ ?]. by apply (Hdb j).
  - by rewrite get_summary_keeps_db.
Qed.

(** X12: [add_expense] never stores an amount that is not positive, and
    only [edit_expense] can bring one in: after any sequence of calls on
    the fresh database in which every amount supplied to [edit_expense] is
    positive, every stored row has a positive amount. *)
Theorem amounts_positive_unless_edited (calls : list Call) :
  Forall edits_positive_amount calls →
  amounts_positive (run calls init_db).
Proof.
  intros Hcalls.
  assert (amounts_positive init_db) as Hinit.
  { intros j e. simpl. by rewrite lookup_empty. }
  revert Hinit. generalize init_db. unfold run.
  induction Hcalls as [|c calls Hc _ IH]; intros db Hdb; simpl; [done|].
  by apply IH, call_keeps_amounts_positive.
Qed.

Lemma amounts_positive_unless_edited_witness :
  amounts_positive
    (run [AddExpense clk0 50 "Food" "" "" None;
          AddExpense clk0 (-3) "Food" "" "" None;
          EditExpense 1 (Some 8%Q) None None None None;
          EditExpense 1 None (Some "Bills") None None None] init_db).
Proof.
  apply amounts_positive_unless_edited.
  repeat constructor; simpl; reflexivity.
Defined.

(** ** get_expenses after add_expense *)

Lemma where_nil (r : Row) : where_ [] r.
Proof. done. Qed.

(** X3: after [add_expense] with a positive amount, [get_expenses] without
    filters lists the new row, with the id of the reply and the values
    given, and besides it exactly the rows it listed before. *)
Theorem get_expenses_after_add (clk : Clock) (a : Q) (cat desc sub : string)
    (d : option string) (db : Db) :
  (0 < a)%Q →
  ∃ expense_id db',
    add_expense clk a cat desc sub d db
    = (ExpenseAdded expense_id a cat (default (today clk) d), db')
    ∧ ∀ r : Row,
        r ∈ listed (get_expenses None None None db').1 ↔
        r = (expense_id,
             {| amount := a; category := cat; subcategory := sub;
                description := desc; date := default (today clk) d;
                created_at := now_iso clk |})
        ∨ r ∈ listed (get_expenses None None None db).1.
Proof.
  intros Ha. eexists _, _. split; [by apply add_expense_ok|].
  intros [j e]. rewrite !listed_get_expenses, !elem_of_get_expenses_rows.
  simpl. rewrite lookup_insert. case_decide as Hj.
  - subst j. rewrite new_rowid_fresh. unfold added_row. split.
    + intros [[= <-] _]. by left.
    + intros [[= <-]|[[=] _]]. split; [done|apply where_nil].
  - split.
    + intros [He _]. right. split; [done|apply where_nil].
    + intros [[= ? _]|[He _]]; [done|]. split; [done|apply where_nil].
Qed.

Lemma get_expenses_after_add_witness :
  ∃ db',
    add_expense clk0 12 "Bills" "rent" "Rent" None db_scenario
    = (ExpenseAdded 4 12 "Bills" "2024-03-01", db')
    ∧ (4, {| amount := 12; category := "Bills"; subcategory := "Rent";
             description := "rent"; date := "2024-03-01";
             created_at := "2024-03-01T10:00:00" |})
      ∈ listed (get_expenses None None None db').1.
Proof.
  destruct (get_expenses_after_add clk0 12 "Bills" "rent" "Rent" None
              db_scenario eq_refl) as (i & db' & Hadd & Hlist).
  assert (i = 4) as ->.
  { apply (f_equal fst) in Hadd. by injection Hadd as <-. }
  exists db'. split; [done|]. apply Hlist. by left.
Defined.

(** ** get_expenses: the reply *)

(** X4: [get_expenses] never changes the database.  Either no stored row
    satisfies the filters in force (those supplied and not empty) and it
    answers "No expenses found", or it reports a list that is not empty and
    holds, once each, exactly the stored rows that satisfy them. *)
Theorem get_expenses_reply (db : Db) (sd ed cat : option string) :
  (get_expenses sd ed cat db).2 = db
  ∧ (((get_expenses sd ed cat db).1 = Message "No expenses found"
      ∧ ∀ expense_id e,
          expenses db !! expense_id = Some e →
          ¬ satisfies_nonempty sd ed cat e)
     ∨ ∃ rows : list Row,
         (get_expenses sd ed cat db).1 = ExpensesFound rows
         ∧ rows ≠ []
         ∧ NoDup rows
         ∧ ∀ r : Row,
             r ∈ rows ↔
             expenses db !! r.1 = Some r.2
             ∧ satisfies_nonempty sd ed cat r.2).
Proof.
  split; [apply get_expenses_keeps_db|].
  pose proof (NoDup_get_expenses_ids sd ed cat db) as Hnd.
  apply NoDup_fmap_1 in Hnd.
  assert (∀ r : Row,
            r ∈ get_expenses_rows sd ed cat db ↔
            expenses db !! r.1 = Some r.2
            ∧ satisfies_nonempty sd ed cat r.2) as Hin.
  { intros r. by rewrite elem_of_get_expenses_rows, where_get_expenses. }
  unfold get_expenses.
  destruct (get_expenses_rows sd ed cat db) as [|r rows]; cbn [fst].
  - left. split; [done|]. intros i e He Hsat.
    apply (elem_of_nil (i, e)), Hin. done.
  - right. by exists (r :: rows).
Qed.

(** ** get_summary: counts, categories and order *)

Lemma summarised_get_summary sd ed db :
  summarised (get_summary sd ed db).1 = get_summary_rows sd ed db.
Proof.
  unfold get_summary. by destruct (get_summary_rows sd ed db).
Qed.

Lemma where_category_nonempty conditions c (r : Row) :
  c ≠ "" →
  where_ (conditions ++ if_truthy (Some c) CategoryEq) r ↔
  category r.2 = c ∧ where_ conditions r.
Proof.
  intros Hc. rewrite where_app, where_if_truthy. simpl.
  rewrite String.eqb_eq. tauto.
Qed.

Lemma NoDup_get_summary_source sd ed db : NoDup (get_summary_source sd ed db).
Proof. apply NoDup_filter, NoDup_map_to_list. Qed.

Lemma elem_of_get_summary_source sd ed db (r : Row) :
  r ∈ get_summary_source sd ed db ↔
  expenses db !! r.1 = Some r.2 ∧ in_date_range sd ed r.2.
Proof.
  unfold get_summary_source.
  rewrite list_elem_of_filter, elem_of_map_to_list', where_date_range.
  unfold in_date_range. tauto.
Qed.

Lemma get_summary_rows_Permutation sd ed db :
  get_summary_rows sd ed db ≡ₚ group_by_category (get_summary_source sd ed db).
Proof. apply merge_sort_Permutation. Qed.

Lemma get_expenses_rows_all_categories sd ed db :
  get_expenses_rows sd ed None db ≡ₚ get_summary_source sd ed db.
Proof.
  unfold get_expenses_rows, get_summary_source.
  rewrite merge_sort_Permutation. simpl. by rewrite app_nil_r.
Qed.

Lemma get_expenses_rows_of_category sd ed c db :
  c ≠ "" →
  get_expenses_rows sd ed (Some c) db
  ≡ₚ of_category c (get_summary_source sd ed db).
Proof.
  intros Hc. unfold get_expenses_rows, get_summary_source, of_category.
  rewrite merge_sort_Permutation, list_filter_filter.
  erewrite list_filter_iff; [done|]. intros r. cbn beta.
  by rewrite (assoc (++)), where_category_nonempty.
Qed.

Lemma accumulate_count_of_category c' c a (summary : list SummaryRow) :
  sum_list_with summary_count (summary_of_category c' (accumulate c a summary))
  = ((if decide (c = c') then 1 else 0)
     + sum_list_with summary_count (summary_of_category c' summary))%nat.
Proof.
  unfold summary_of_category.
  induction summary as [|g summary IH]; cbn [accumulate].
  - rewrite filter_cons, filter_nil. unfold summary_category at 1.
    cbn [fst]. by repeat case_decide.
  - destruct (String.eqb_spec (summary_category g) c) as [Hg|Hg].
    + rewrite !filter_cons. unfold summary_category at 1. cbn [fst].
      rewrite Hg. repeat case_decide; try done; simpl;
        try (unfold summary_count at 1; simpl); lia.
    + rewrite !filter_cons. repeat case_decide; try congruence; simpl;
        rewrite ?IH; repeat case_decide; try congruence; lia.
Qed.

Lemma group_by_category_count_of_category c' (rows : list Row) :
  sum_list_with summary_count
    (summary_of_category c' (group_by_category rows))
  = length (of_category c' rows).
Proof.
  unfold group_by_category.
  transitivity
    (sum_list_with summary_count (summary_of_category c' [])
     + length (of_category c' rows))%nat; [|done].
  generalize ([] : list SummaryRow). unfold of_category.
  induction rows as [|r rows IH]; intros summary; cbn [foldl].
  - rewrite filter_nil. simpl. lia.
  - rewrite IH, accumulate_count_of_category, filter_cons.
    repeat case_decide; try congruence; simpl; lia.
Qed.

Lemma summary_of_category_count (summary : list SummaryRow) g :
  NoDup (summary_category <$> summary) → g ∈ summary →
  sum_list_with summary_count
    (summary_of_category (summary_category g) summary)
  = summary_count g.
Proof.
  induction summary as [|g' summary IH]; [by intros _ ?%elem_of_nil|].
  rewrite fmap_cons, NoDup_cons. intros [Hg' Hnd].
  unfold summary_of_category. rewrite filter_cons.
  intros [->|Hg]%elem_of_cons.
  - rewrite decide_True by done.
    fold (summary_of_category (summary_category g') summary).
    rewrite summary_of_category_absent by done. simpl. lia.
  - rewrite decide_False.
    + by apply IH.
    + intros Heq. apply Hg'. rewrite Heq. by apply list_elem_of_fmap_2.
Qed.

Lemma elem_of_accumulate_categories c' c a (summary : list SummaryRow) :
  c' ∈ summary_category <$> accumulate c a summary ↔
  c' = c ∨ c' ∈ summary_category <$> summary.
Proof.
  rewrite accumulate_categories. case_decide as Hc.
  - split; [by right|]. by intros [->|?].
  - rewrite elem_of_app, list_elem_of_singleton. tauto.
Qed.

Lemma elem_of_group_by_category_categories c' (rows : list Row) :
  c' ∈ summary_category <$> group_by_category rows ↔
  ∃ r : Row, r ∈ rows ∧ category r.2 = c'.
Proof.
  unfold group_by_category.
  transitivity (c' ∈ summary_category <$> ([] : list SummaryRow)
                ∨ ∃ r : Row, r ∈ rows ∧ category r.2 = c').
  2:{ rewrite fmap_nil, elem_of_nil. tauto. }
  generalize ([] : list SummaryRow).
  induction rows as [|r rows IH]; intros summary; cbn [foldl].
  - split; [by left|]. intros [?|(r & Hr & _)]; [done|].
    by apply elem_of_nil in Hr.
  - rewrite IH, elem_of_accumulate_categories. split.
    + intros [[->|?]|(r' & Hr' & Hc)].
      * right. exists r. split; [apply list_elem_of_here|done].
      * by left.
      * right. exists r'. split; [by apply list_elem_of_further|done].
    + intros [?|(r' & [->|Hr']%elem_of_cons & Hc)].
      * left. by right.
      * left. by left.
      * right. by exists r'.
Qed.

Lemma of_category_length_pos c (rows : list Row) (r : Row) :
  r ∈ rows → category r.2 = c → (0 < length (of_category c rows))%nat.
Proof.
  intros Hr Hc.
  assert (r ∈ of_category c rows) as Hin
    by (unfold of_category; by rewrite list_elem_of_filter).
  destruct (of_category c rows); [by apply elem_of_nil in Hin|simpl; lia].
Qed.

(** X5: [get_summary] never changes the database.  It reports one row for
    each category that occurs among the rows passing the date filters, and
    for no other category; the count of a row is the number of passing rows
    of its category, which is at least one. *)
Theorem get_summary_counts (db : Db) (sd ed : option string) :
  (get_summary sd ed db).2 = db
  ∧ ∃ rows : list Row,
      NoDup rows
      ∧ (∀ r : Row,
           r ∈ rows ↔
           expenses db !! r.1 = Some r.2 ∧ in_date_range sd ed r.2)
      ∧ NoDup (summary_category <$> summarised (get_summary sd ed db).1)
      ∧ (∀ c,
           c ∈ summary_category <$> summarised (get_summary sd ed db).1 ↔
           ∃ r : Row, r ∈ rows ∧ category r.2 = c)
      ∧ (∀ g, g ∈ summarised (get_summary sd ed db).1 →
           summary_count g
           = length (of_category (summary_category g) rows)
           ∧ (0 < summary_count g)%nat).
Proof.
  split; [apply get_summary_keeps_db|].
  pose proof (get_summary_rows_Permutation sd ed db) as Hperm.
  set (rows := get_summary_source sd ed db) in *.
  exists rows. rewrite summarised_get_summary.
  split; [apply NoDup_get_summary_source|].
  split; [apply elem_of_get_summary_source|].
  assert (NoDup (summary_category <$> get_summary_rows sd ed db)) as Hcats
    by (rewrite Hperm; apply group_by_category_NoDup).
  split; [done|].
  assert (∀ c, c ∈ summary_category <$> get_summary_rows sd ed db ↔
               ∃ r : Row, r ∈ rows ∧ category r.2 = c) as Hcat.
  { intros c. rewrite Hperm. apply elem_of_group_by_category_categories. }
  split; [done|]. intros g Hg.
  assert (summary_count g = length (of_category (summary_category g) rows))
    as Hcount.
  { rewrite <-group_by_category_count_of_category.
    rewrite <-(summary_of_category_count _ g Hcats Hg).
    unfold summary_of_category. by rewrite Hperm. }
  split; [done|]. rewrite Hcount.
  destruct (proj1 (Hcat (summary_category g))) as (r & Hr & Hc).
  { by apply list_elem_of_fmap_2. }
  by apply (of_category_length_pos _ _ r).
Qed.

Global Instance order_by_total_desc_total : Total order_by_total_desc.
Proof.
  intros g1 g2. unfold order_by_total_desc.
  destruct (Qlt_le_dec (summary_total g1) (summary_total g2)) as [H|H].
  - right. by apply Qlt_le_weak.
  - by left.
Qed.

Global Instance order_by_total_desc_trans : Transitive order_by_total_desc.
Proof.
  intros g1 g2 g3. unfold order_by_total_desc. intros H12 H23.
  by apply (Qle_trans _ (summary_total g2)).
Qed.


(** ** get_summary and get_expenses *)

Lemma NoDup_get_summary_categories sd ed db :
  NoDup (summary_category <$> get_summary_rows sd ed db).
Proof.
  rewrite get_summary_rows_Permutation. apply group_by_category_NoDup.
Qed.

Lemma get_summary_row_count sd ed db g :
  g ∈ get_summary_rows sd ed db →
  summary_count g
  = length (of_category (summary_category g) (get_summary_source sd ed db))
  ∧ (0 < summary_count g)%nat.
Proof.
  intros Hg.
  assert (summary_count g
          = length (of_category (summary_category g)
                      (get_summary_source sd ed db))) as Hcount.
  { rewrite <-group_by_category_count_of_category.
    rewrite <-(summary_of_category_count _ g
                 (NoDup_get_summary_categories sd ed db) Hg).
    unfold summary_of_category.
    by rewrite (get_summary_rows_Permutation sd ed db). }
  split; [done|]. rewrite Hcount.
  assert (summary_category g
          ∈ summary_category <$> group_by_category (get_summary_source sd ed db))
    as (r & Hr & Hc)%elem_of_group_by_category_categories.
  { rewrite <-get_summary_rows_Permutation. by apply list_elem_of_fmap_2. }
  by apply (of_category_length_pos _ _ r).
Qed.

Lemma accumulate_count c a (summary : list SummaryRow) :
  sum_list_with summary_count (accumulate c a summary)
  = S (sum_list_with summary_count summary).
Proof.
  induction summary as [|g summary IH]; cbn [accumulate]; [done|].
  destruct (String.eqb (summary_category g) c); simpl;
    rewrite ?IH; unfold summary_count; simpl; lia.
Qed.

Lemma group_by_category_count (rows : list Row) :
  sum_list_with summary_count (group_by_category rows) = length rows.
Proof.
  unfold group_by_category.
  transitivity
    (sum_list_with summary_count ([] : list SummaryRow) + length rows)%nat;
    [|done].
  generalize ([] : list SummaryRow).
  induction rows as [|r rows IH]; intros summary; cbn [foldl].
  - simpl. lia.
  - rewrite IH, accumulate_count. simpl. lia.
Qed.

(** X7: [get_summary] and [get_expenses] with the same date bounds and no
    category agree on the rows: either both answer "No expenses found", or
    both report rows, the counts of the summary add up to the number of
    rows listed, and the categories of the summary are those of the rows
    listed. *)
Theorem get_summary_agrees_with_get_expenses (db : Db) (sd ed : option string) :
  ((get_summary sd ed db).1 = Message "No expenses found"
   ∧ (get_expenses sd ed None db).1 = Message "No expenses found")
  ∨ ∃ summary rows,
      (get_summary sd ed db).1 = SummaryReport summary
      ∧ (get_expenses sd ed None db).1 = ExpensesFound rows
      ∧ sum_list_with summary_count summary = length rows
      ∧ ∀ c,
          c ∈ summary_category <$> summary ↔
          ∃ r : Row, r ∈ rows ∧ category r.2 = c.
Proof.
  pose proof (get_summary_rows_Permutation sd ed db) as Hsum.
  pose proof (get_expenses_rows_all_categories sd ed db) as Hlist.
  assert (sum_list_with summary_count (get_summary_rows sd ed db)
          = length (get_expenses_rows sd ed None db)) as Hcount.
  { by rewrite Hsum, Hlist, group_by_category_count. }
  assert (∀ c,
            c ∈ summary_category <$> get_summary_rows sd ed db ↔
            ∃ r : Row, r ∈ get_expenses_rows sd ed None db ∧ category r.2 = c)
    as Hcat.
  { intros c. rewrite Hsum, elem_of_group_by_category_categories.
    by setoid_rewrite Hlist. }
  unfold get_summary, get_expenses.
  destruct (get_expenses_rows sd ed None db) as [|r rows];
    destruct (get_summary_rows sd ed db) as [|g summary]; cbn [fst].
  - by left.
  - simpl in Hcount. destruct (proj1 (Hcat (summary_category g)))
      as (r & Hr & _); [apply list_elem_of_here|].
    by apply elem_of_nil in Hr.
  - assert (category r.2 ∈ summary_category <$> ([] : list SummaryRow))
      as Hc.
    { apply Hcat. exists r. split; [apply list_elem_of_here|done]. }
    by apply elem_of_nil in Hc.
  - right. by exists (g :: summary), (r :: rows).
Qed.

(** X8: for a summary row of a non-empty category, [get_expenses] with the
    same date bounds and that category reports rows, and their number is
    the count of the summary row. *)
Theorem get_summary_row_agrees_with_get_expenses
    (db : Db) (sd ed : option string) (g : SummaryRow) :
  g ∈ summarised (get_summary sd ed db).1 →
  summary_category g ≠ "" →
  ∃ rows,
    (get_expenses sd ed (Some (summary_category g)) db).1
    = ExpensesFound rows
    ∧ length rows = summary_count g.
Proof.
  rewrite summarised_get_summary. intros Hg Hc.
  pose proof (get_expenses_rows_of_category sd ed _ db Hc) as Hperm.
  destruct (get_summary_row_count sd ed db g Hg) as [Hcount Hpos].
  unfold get_expenses.
  destruct (get_expenses_rows sd ed (Some (summary_category g)) db)
    as [|r rows] eqn:Hrows.
  - apply Permutation_length in Hperm. simpl in Hperm. lia.
  - eexists. cbn [fst]. split; [done|]. by rewrite Hcount, <-Hperm.
Qed.

Lemma get_summary_row_agrees_with_get_expenses_witness :
  ∃ rows,
    (get_expenses None None (Some "Food") db_scenario).1
    = ExpensesFound rows
    ∧ length rows = 2%nat.
Proof.
  apply (get_summary_row_agrees_with_get_expenses db_scenario None None
           ("Food", 70%Q, 2%nat)).
  - vm_compute. apply list_elem_of_here.
  - discriminate.
Defined.

(** ** get_expenses: the category filter *)

Lemma StronglySorted_filter {A} (R : relation A) (P : A → Prop)
    `{!∀ x, Decision (P x)} (l : list A) :
  StronglySorted R l → StronglySorted R (filter P l).
Proof.
  induction 1 as [|x l _ IH Hx]; [constructor|].
  rewrite filter_cons. case_decide; [|done].
  constructor; [done|]. rewrite Forall_forall in Hx. apply Forall_forall.
  intros y [_ Hy]%list_elem_of_filter. by apply Hx.
Qed.

Lemma order_by_antisym_ids (r1 r2 : Row) :
  order_by_date_desc_id_desc r1 r2 → order_by_date_desc_id_desc r2 r1 →
  r1.1 = r2.1.
Proof.
  unfold order_by_date_desc_id_desc.
  rewrite (compare_antisym (date r2.2)).
  destruct (Text.compare (date r1.2) (date r2.2)); simpl; try done. lia.
Qed.

(** X14: for a category that is not the empty string, the listing with the
    category filter is the listing without it, restricted to the rows of
    that category and in the same order. *)
Theorem get_expenses_category_filter
    (db : Db) (sd ed : option string) (c : string) :
  c ≠ "" →
  listed (get_expenses sd ed (Some c) db).1
  = of_category c (listed (get_expenses sd ed None db).1).
Proof.
  intros Hc. rewrite !listed_get_expenses.
  apply (StronglySorted_unique_strong order_by_date_desc_id_desc).
  - intros [i1 e1] [i2 e2] H1 [_ H2]%list_elem_of_filter H12 H21.
    apply elem_of_get_expenses_rows in H1 as [H1 _].
    apply elem_of_get_expenses_rows in H2 as [H2 _].
    pose proof (order_by_antisym_ids _ _ H12 H21) as Hi.
    simpl in *. subst i2. congruence.
  - unfold get_expenses_rows. apply StronglySorted_merge_sort; apply _.
  - apply StronglySorted_filter.
    unfold get_expenses_rows. apply StronglySorted_merge_sort; apply _.
  - rewrite get_expenses_rows_of_category by done.
    unfold of_category. by rewrite get_expenses_rows_all_categories.
Qed.

Lemma get_expenses_category_filter_witness :
  listed (get_expenses None None (Some "Food") db_scenario).1
  = of_category "Food" (listed (get_expenses None None None db_scenario).1).
Proof.
  apply (get_expenses_category_filter db_scenario None None "Food").
  discriminate.
Defined.

(** ** get_expenses and get_summary: an empty date range *)

Lemma compare_le_lt_trans s1 s2 s3 :
  Text.le s1 s2 → Text.lt s2 s3 → Text.lt s1 s3.
Proof.
  unfold Text.le, Text.lt. intros H12 H23.
  destruct (Text.compare s1 s2) eqn:Hc; [| |done].
  - apply compare_eq in Hc. by subst.
  - by apply (compare_lt_trans _ s2).
Qed.

Lemma compare_empty_not_lt s : ¬ Text.lt s "".
Proof. unfold Text.lt. by destruct s. Qed.

Lemma filter_none {A} (P : A → Prop) `{!∀ x, Decision (P x)} (l : list A) :
  (∀ x, x ∈ l → ¬ P x) → filter P l = [].
Proof.
  induction l as [|x l IH]; [done|]. intros Hno.
  rewrite filter_cons, decide_False by (apply Hno; apply list_elem_of_here).
  apply IH. intros y Hy. apply Hno. by apply list_elem_of_further.
Qed.

(** X11: when the end date is not empty and is, as a string, before the
    start date, no row can pass both date filters: [get_expenses], with or
    without a category, and [get_summary] answer "No expenses found". *)
Theorem empty_date_range (db : Db) (sd ed : string) (cat : option string) :
  ed ≠ "" → Text.lt ed sd →
  get_expenses (Some sd) (Some ed) cat db
  = (Message "No expenses found", db)
  ∧ get_summary (Some sd) (Some ed) db = (Message "No expenses found", db).
Proof.
  intros Hed Hlt.
  assert (sd ≠ "") as Hsd.
  { intros ->. by apply (compare_empty_not_lt ed). }
  assert (∀ r : Row,
            ¬ where_ (if_truthy (Some sd) DateGe ++ if_truthy (Some ed) DateLe)
                r) as Hnone.
  { intros r [Hge Hle]%where_date_range. simpl in *.
    specialize (Hge Hsd). specialize (Hle Hed).
    apply Hge. by apply (compare_le_lt_trans _ ed). }
  split.
  - unfold get_expenses, get_expenses_rows.
    rewrite filter_none; [done|]. intros r _ Hr. apply (Hnone r).
    rewrite (assoc (++)) in Hr. by apply where_app in Hr as [? _].
  - unfold get_summary, get_summary_rows.
    rewrite filter_none; [done|]. intros r _. apply Hnone.
Qed.

Lemma empty_date_range_witness :
  get_expenses (Some "2024-02-01") (Some "2024-01-01") None db_scenario
  = (Message "No expenses found", db_scenario)
  ∧ get_summary (Some "2024-02-01") (Some "2024-01-01") db_scenario
    = (Message "No expenses found", db_scenario).
Proof.
  apply (empty_date_range db_scenario "2024-02-01" "2024-01-01" None).
  - discriminate.
  - reflexivity.
Defined.

(** ** edit_expense twice *)

Lemma default_later_or {A} (x : A) (later earlier : option A) :
  default (default x earlier) later = default x (later_or later earlier).
Proof. by destruct later, earlier. Qed.

(** X10: two edits of one id leave the database that a single edit leaves
    in which each field has the later value when the later edit supplies
    it, and else the earlier one.  In particular an edit repeated with the
    same arguments changes nothing more. *)
Theorem edit_expense_twice (db : Db) (expense_id : Z)
    (a1 a2 : option Q) (cat1 cat2 sub1 sub2 desc1 desc2 d1 d2 : option string) :
  (edit_expense expense_id a2 cat2 sub2 desc2 d2
     (edit_expense expense_id a1 cat1 sub1 desc1 d1 db).2).2
  = (edit_expense expense_id (later_or a2 a1) (later_or cat2 cat1)
       (later_or sub2 sub1) (later_or desc2 desc1) (later_or d2 d1) db).2.
Proof.
  destruct (expenses db !! expense_id) as [e|] eqn:He.
  - destruct (edit_expense_row db expense_id e a1 cat1 sub1 desc1 d1 He)
      as (He1 & _ & _).
    rewrite (edit_expense_db _ _ _ _ _ _ _ _ He1).
    rewrite !(edit_expense_db e) by done. simpl. f_equal.
    unfold update_where_id. apply map_eq. intros j.
    rewrite !lookup_alter. case_decide; [|done]. subst j.
    rewrite decide_True by done. rewrite He.
    cbn [fmap option_fmap option_map]. f_equal.
    rewrite !foldl_assign_updates.
    cbn [amount category subcategory description date created_at].
    by rewrite !default_later_or.
  - rewrite (edit_expense_no_row db _ a1 cat1 sub1 desc1 d1 He).
    by rewrite !edit_expense_no_row.
Qed.

(** ** The empty table *)

(** X15: while the table has no row, whatever the counter is, both queries
    answer "No expenses found" for all arguments, and [edit_expense] and
    [delete_expense] answer that the id is not found for every id that fits
    a signed 64-bit integer and raise OverflowError for every other id;
    the database stays as it is. *)
Theorem empty_table_replies (db : Db) :
  expenses db = ∅ →
  (∀ sd ed cat, get_expenses sd ed cat db = (Message "No expenses found", db))
  ∧ (∀ sd ed, get_summary sd ed db = (Message "No expenses found", db))
  ∧ (∀ i a cat sub desc d,
       - 2 ^ 63 ≤ i < 2 ^ 63 →
       edit_expense i a cat sub desc d db
       = (Message ("Error: Expense with ID " +:+ Text.of_int i
                     +:+ " not found"), db)
       ∧ delete_expense i db
         = (Message ("Error: Expense with ID " +:+ Text.of_int i
                       +:+ " not found"), db))
  ∧ (∀ i a cat sub desc d,
       ¬ (- 2 ^ 63 ≤ i < 2 ^ 63) →
       edit_expense i a cat sub desc d db = (Raises "OverflowError", db)
       ∧ delete_expense i db = (Raises "OverflowError", db)).
Proof.
  intros Hempty. split; [|split; [|split]].
  - intros sd ed cat. unfold get_expenses, get_expenses_rows.
    by rewrite Hempty, map_to_list_empty.
  - intros sd ed. unfold get_summary, get_summary_rows.
    by rewrite Hempty, map_to_list_empty.
  - intros i a cat sub desc d Hfits%fits_int64_spec.
    unfold edit_expense, delete_expense, delete_where_id.
    rewrite Hempty, lookup_empty. simpl. by rewrite Hfits.
  - intros i a cat sub desc d Hfits.
    unfold edit_expense, delete_expense, delete_where_id.
    rewrite Hempty, lookup_empty. simpl.
    destruct (fits_int64 i) eqn:Hf; [|done].
    by apply fits_int64_spec in Hf.
Qed.

Lemma empty_table_replies_witness :
  get_summary None None
    (run [AddExpense clk0 50 "Food" "" "" None; DeleteExpense 1] init_db)
  = (Message "No expenses found",
     run [AddExpense clk0 50 "Food" "" "" None; DeleteExpense 1] init_db)
  ∧ delete_expense 1
      (run [AddExpense clk0 50 "Food" "" "" None; DeleteExpense 1] init_db)
    = (Message "Error: Expense with ID 1 not found",
       run [AddExpense clk0 50 "Food" "" "" None; DeleteExpense 1] init_db)
  ∧ edit_expense (2 ^ 64) None (Some "Food") None None None
      (run [AddExpense clk0 50 "Food" "" "" None; DeleteExpense 1] init_db)
    = (Raises "OverflowError",
       run [AddExpense clk0 50 "Food" "" "" None; DeleteExpense 1] init_db).
Proof.
  destruct (empty_table_replies
              (run [AddExpense clk0 50 "Food" "" "" None; DeleteExpense 1]
                 init_db) eq_refl) as (_ & Hsum & Hfound & Hraise).
  split; [apply Hsum|]. split.
  - apply (Hfound 1 None None None None None). lia.
  - apply (Hraise (2 ^ 64) None (Some "Food") None None None). lia.
Defined.

(** ** get_expenses after delete_expense *)

(** X16: after [delete_expense] of an existing id, every listing, whatever
    its filters, is the listing of before without the row of that id, the
    other rows in the same order. *)
Theorem get_expenses_after_delete
    (db : Db) (expense_id : Z) (e : Expense) (sd ed cat : option string) :
  expenses db !! expense_id = Some e →
  listed (get_expenses sd ed cat (delete_expense expense_id db).2).1
  = filter (λ r : Row, r.1 ≠ expense_id)
      (listed (get_expenses sd ed cat db).1).
Proof.
  intros He. rewrite !listed_get_expenses.
  assert (expenses (delete_expense expense_id db).2
          = delete expense_id (expenses db)) as Hdel.
  { unfold delete_expense, delete_where_id. by rewrite He. }
  assert (∀ r : Row,
            r ∈ get_expenses_rows sd ed cat (delete_expense expense_id db).2 ↔
            r ∈ filter (λ r : Row, r.1 ≠ expense_id)
                  (get_expenses_rows sd ed cat db)) as Hiff.
  { intros r. rewrite list_elem_of_filter, !elem_of_get_expenses_rows.
    rewrite Hdel, lookup_delete_Some. intuition congruence. }
  apply (StronglySorted_unique_strong order_by_date_desc_id_desc).
  - intros [i1 e1] [i2 e2] H1%Hiff H2 H12 H21.
    apply list_elem_of_filter in H1 as [_ [H1 _]%elem_of_get_expenses_rows].
    apply list_elem_of_filter in H2 as [_ [H2 _]%elem_of_get_expenses_rows].
    pose proof (order_by_antisym_ids _ _ H12 H21) as Hi.
    simpl in *. subst i2. congruence.
  - unfold get_expenses_rows. apply StronglySorted_merge_sort; apply _.
  - apply StronglySorted_filter.
    unfold get_expenses_rows. apply StronglySorted_merge_sort; apply _.
  - apply NoDup_Permutation; [| |done].
    + eapply NoDup_fmap_1, NoDup_get_expenses_ids.
    + apply NoDup_filter. eapply NoDup_fmap_1, NoDup_get_expenses_ids.
Qed.

Lemma get_expenses_after_delete_witness :
  (λ r : Row, r.1)
    <$> listed (get_expenses None None None (delete_expense 2 db_scenario).2).1
  = [3; 1].
Proof.
  rewrite (get_expenses_after_delete db_scenario 2
             {| amount := 20; category := "Food"; subcategory := "";
                description := ""; date := "2024-01-02";
                created_at := "2024-03-01T10:00:00" |} None None None eq_refl).
  reflexivity.
Defined.

(** ** get_expenses after edit_expense *)

(** X17: after [edit_expense] of an existing id, [get_expenses] without
    filters lists that id with the supplied fields changed and the others
    kept, and besides it exactly the rows of the other ids it listed
    before. *)
Theorem get_expenses_after_edit
    (db : Db) (expense_id : Z) (e : Expense) (a : option Q)
    (cat sub desc d : option string) :
  expenses db !! expense_id = Some e →
  ∀ r : Row,
    r ∈ listed (get_expenses None None None
                  (edit_expense expense_id a cat sub desc d db).2).1 ↔
    r = (expense_id,
         {| amount := default (amount e) a;
            category := default (category e) cat;
            subcategory := default (subcategory e) sub;
            description := default (description e) desc;
            date := default (date e) d;
            created_at := created_at e |})
    ∨ (r.1 ≠ expense_id ∧ r ∈ listed (get_expenses None None None db).1).
Proof.
  intros He [j e'].
  destruct (edit_expense_row db expense_id e a cat sub desc d He)
    as (Hrow & Hother & _).
  rewrite !listed_get_expenses, !elem_of_get_expenses_rows. simpl.
  destruct (decide (j = expense_id)) as [->|Hj].
  - rewrite Hrow. split.
    + intros [[= <-] _]. by left.
    + intros [[= <-]|[? _]]; [|done]. split; [done|apply where_nil].
  - rewrite Hother by done. split.
    + intros [He' _]. right. split; [done|]. split; [done|apply where_nil].
    + intros [[= ? _]|[_ [He' _]]]; [done|]. split; [done|apply where_nil].
Qed.

Lemma get_expenses_after_edit_witness :
  (2, {| amount := 20; category := "Bills"; subcategory := "";
         description := ""; date := "2024-05-05";
         created_at := "2024-03-01T10:00:00" |})
  ∈ listed (get_expenses None None None
              (edit_expense 2 None (Some "Bills") None None
                 (Some "2024-05-05") db_scenario).2).1.
Proof.
  apply (get_expenses_after_edit db_scenario 2
           {| amount := 20; category := "Food"; subcategory := "";
              description := ""; date := "2024-01-02";
              created_at := "2024-03-01T10:00:00" |}
           None (Some "Bills") None None (Some "2024-05-05") eq_refl).
  by left.
Defined.
